(** * Confighomework: a configuration-language to TOML converter

    Shallow embedding of [main.go] (package [main]) and proofs about it.

    Go strings are byte sequences: they are modelled as [string], whose
    characters are the 8-bit [ascii] values.  The Go [int] is the 64-bit
    signed integer of the usual platforms: it is modelled as [Z], with the
    two's-complement wrap-around of [+], [-] and unary minus written out.
    The symbol table [map[string]interface{}] is a [gmap string Value].

    A function that returns [(v, error)] returns a [result]; a method
    that changes the parser or the output builder and returns an [error]
    returns the new state and an [option error].  The functions of the Go
    library the program calls are modelled first, each in a module named
    after its package; where the library loops, the model takes the
    bound of the loop as fuel, and the section on bounds shows that the
    fuel given is never what ends the loop. *)

From Stdlib Require Import ZArith Ascii String List Lia Bool.
From stdpp Require Import base option list gmap strings.

Set Default Proof Using "Type".

(** ** Characters that cannot be written inside a literal *)

Definition dquote : ascii := "034"%char.
Definition newline : ascii := "010"%char.
Definition nl : string := String newline EmptyString.
(** The two-byte marker that opens a quoted string, [@] followed by a
    double quote, and the one-byte marker that closes it. *)
Definition at_quote : string := String "@"%char (String dquote EmptyString).
Definition quote : string := String dquote EmptyString.

(** ** Byte strings: slicing *)

Definition byte (c : ascii) : Z := Z.of_N (N_of_ascii c).

(** [drop n s] is the slice [s[n:]], [take n s] the slice [s[:n]]. *)
Fixpoint drop (n : nat) (s : string) : string :=
  match n, s with
  | S n', String _ s' => drop n' s'
  | _, _ => s
  end.

Fixpoint take (n : nat) (s : string) : string :=
  match n, s with
  | S n', String c s' => String c (take n' s')
  | _, _ => EmptyString
  end.

Definition isEmpty (s : string) : bool :=
  match s with EmptyString => true | String _ _ => false end.

(** ** Package [unicode/utf8] and [unicode] *)

Module utf8.

Definition RuneError : Z := 65533.

Definition cont (b : Z) : bool := (128 <=? b)%Z && (b <=? 191)%Z.

(** [DecodeRuneInString]: the first rune of [s] and its width in bytes;
    an invalid or truncated encoding gives [(RuneError, 1)], the empty
    string [(RuneError, 0)].  The acceptance ranges of the second byte
    are those of the table [first] of the Go library. *)
Definition DecodeRuneInString (s : string) : Z * nat :=
  match s with
  | EmptyString => (RuneError, 0)
  | String c0 r0 =>
    let b0 := byte c0 in
    if (b0 <? 128)%Z then (b0, 1)
    else if (b0 <? 194)%Z then (RuneError, 1)
    else if (244 <? b0)%Z then (RuneError, 1)
    else
      let sz := if (b0 <? 224)%Z then 2 else if (b0 <? 240)%Z then 3 else 4 in
      let lo := if (b0 =? 224)%Z then 160%Z else if (b0 =? 240)%Z then 144%Z else 128%Z in
      let hi := if (b0 =? 237)%Z then 159%Z else if (b0 =? 244)%Z then 143%Z else 191%Z in
      if String.length s <? sz then (RuneError, 1)
      else
        match r0 with
        | EmptyString => (RuneError, 1)
        | String c1 r1 =>
          let b1 := byte c1 in
          if (b1 <? lo)%Z || (hi <? b1)%Z then (RuneError, 1)
          else if sz <=? 2 then
            (Z.lor (Z.shiftl (Z.land b0 31) 6) (Z.land b1 63), 2)
          else
            match r1 with
            | EmptyString => (RuneError, 1)
            | String c2 r2 =>
              let b2 := byte c2 in
              if negb (cont b2) then (RuneError, 1)
              else if sz <=? 3 then
                (Z.lor (Z.lor (Z.shiftl (Z.land b0 15) 12)
                              (Z.shiftl (Z.land b1 63) 6))
                       (Z.land b2 63), 3)
              else
                match r2 with
                | EmptyString => (RuneError, 1)
                | String c3 _ =>
                  let b3 := byte c3 in
                  if negb (cont b3) then (RuneError, 1)
                  else
                    (Z.lor (Z.lor (Z.lor (Z.shiftl (Z.land b0 7) 18)
                                         (Z.shiftl (Z.land b1 63) 12))
                                  (Z.shiftl (Z.land b2 63) 6))
                           (Z.land b3 63), 4)
                end
            end
        end
  end.

(** The runes of a string in order, as [for _, r := range s] yields
    them: each step decodes one rune and advances by its width. *)
Fixpoint runesFrom (fuel : nat) (s : string) : list Z :=
  match fuel with
  | O => []
  | S fuel' =>
    match s with
    | EmptyString => []
    | String _ _ =>
      let '(r, w) := DecodeRuneInString s in r :: runesFrom fuel' (drop w s)
    end
  end.

Definition runes (s : string) : list Z := runesFrom (String.length s) s.

(** [RuneStart]: the byte is no continuation byte. *)
Definition RuneStart (b : Z) : bool := negb (Z.land b 192 =? 128)%Z.

Definition byteAt (s : string) (i : Z) : Z :=
  match String.get (Z.to_nat i) s with Some c => byte c | None => 0%Z end.

(** [for start--; start >= lim; start-- { if RuneStart(s[start]) { break } }],
    entered with [start] already decremented. *)
Fixpoint backToStart (fuel : nat) (s : string) (start lim : Z) : Z :=
  match fuel with
  | O => start
  | S fuel' =>
    if (start <? lim)%Z then start
    else if RuneStart (byteAt s start) then start
    else backToStart fuel' s (start - 1) lim
  end.

(** [DecodeLastRuneInString]: the last rune of [s] and its width, found
    by stepping back at most [UTFMax] bytes to the start of a rune. *)
Definition DecodeLastRuneInString (s : string) : Z * nat :=
  let n := Z.of_nat (String.length s) in
  if (n =? 0)%Z then (RuneError, 0)
  else
    let r := byteAt s (n - 1) in
    if (r <? 128)%Z then (r, 1)
    else
      let lim := Z.max 0 (n - 4) in
      let start := backToStart 4 s (n - 2) lim in
      let start := Z.max 0 start in
      let '(r, size) := DecodeRuneInString (drop (Z.to_nat start) s) in
      if (start + Z.of_nat size =? n)%Z then (r, size) else (RuneError, 1).

End utf8.

Module unicode.

(** [unicode.IsSpace]: the Latin-1 spaces and the code points with the
    White_Space property. *)
Definition IsSpace (r : Z) : bool :=
  ((9 <=? r) && (r <=? 13) || (r =? 32) || (r =? 133) || (r =? 160)
   || (r =? 5760) || (8192 <=? r) && (r <=? 8202) || (r =? 8232)
   || (r =? 8233) || (r =? 8239) || (r =? 8287) || (r =? 12288))%Z.

End unicode.

(** ** Package [strings] *)

Module strings.

Fixpoint HasPrefix (s prefix : string) {struct prefix} : bool :=
  match prefix, s with
  | EmptyString, _ => true
  | String a p', String b s' => Ascii.eqb a b && HasPrefix s' p'
  | String _ _, EmptyString => false
  end.

Definition HasSuffix (s suffix : string) : bool :=
  (String.length suffix <=? String.length s)
  && String.eqb (drop (String.length s - String.length suffix) s) suffix.

Definition TrimPrefix (s prefix : string) : string :=
  if HasPrefix s prefix then drop (String.length prefix) s else s.

Definition TrimSuffix (s suffix : string) : string :=
  if HasSuffix s suffix then take (String.length s - String.length suffix) s
  else s.

(** [Index s substr]: the byte offset of the first occurrence. *)
Fixpoint Index (s substr : string) : option nat :=
  if HasPrefix s substr then Some 0
  else match s with
       | EmptyString => None
       | String _ s' => S <$> Index s' substr
       end.

Definition Contains (s substr : string) : bool :=
  match Index s substr with Some _ => true | None => false end.

(** [genSplit] with a non-empty separator: at most [n] cuts are made,
    the loop stops earlier when the separator no longer occurs. *)
Fixpoint genSplit (n : nat) (s sep : string) : list string :=
  match n with
  | O => [s]
  | S n' =>
    match Index s sep with
    | None => [s]
    | Some m => take m s :: genSplit n' (drop (m + String.length sep) s) sep
    end
  end.

(** [Split s sep] cuts at every occurrence: the library bounds the number
    of pieces by [len(s) + 1]. *)
Definition Split (s sep : string) : list string :=
  genSplit (String.length s) s sep.

(** [SplitN s sep 2]: at most two pieces, hence at most one cut. *)
Definition SplitN2 (s sep : string) : list string := genSplit 1 s sep.

(** [TrimLeftFunc s unicode.IsSpace]: runes are decoded from the left
    while they are white space. *)
Fixpoint trimLeftFrom (fuel : nat) (s : string) : string :=
  match fuel with
  | O => s
  | S fuel' =>
    match s with
    | EmptyString => s
    | String _ _ =>
      let '(r, w) := utf8.DecodeRuneInString s in
      if unicode.IsSpace r then trimLeftFrom fuel' (drop w s) else s
    end
  end.

Definition TrimLeftSpace (s : string) : string :=
  trimLeftFrom (String.length s) s.

(** [lastIndexFunc s unicode.IsSpace false]: the offset of the last rune
    that is not white space, scanning from the right; [i] is the end of
    the part still to scan, [None] the result [-1]. *)
Fixpoint lastIndexNotSpace (fuel : nat) (s : string) (i : nat) : option nat :=
  match fuel with
  | O => None
  | S fuel' =>
    match i with
    | O => None
    | S _ =>
      let '(r, size) := utf8.DecodeLastRuneInString (take i s) in
      let i' := i - size in
      if unicode.IsSpace r then lastIndexNotSpace fuel' s i' else Some i'
    end
  end.

(** [TrimRightFunc s unicode.IsSpace]: the string up to the end of that
    last rune. *)
Definition TrimRightSpace (s : string) : string :=
  match lastIndexNotSpace (String.length s) s (String.length s) with
  | None => EmptyString
  | Some i =>
    if (128 <=? utf8.byteAt s (Z.of_nat i))%Z
    then take (i + snd (utf8.DecodeRuneInString (drop i s))) s
    else take (i + 1) s
  end.

(** [TrimSpace s] is [TrimFunc s unicode.IsSpace], left side first (the
    library adds a fast path for ASCII that computes the same). *)
Definition TrimSpace (s : string) : string := TrimRightSpace (TrimLeftSpace s).

(** [Fields s] is [FieldsFunc s unicode.IsSpace]: one pass over the runes,
    [cur] is the field being read ([start >= 0] in the library). *)
Fixpoint fieldsFrom (fuel : nat) (s : string) (cur : option string)
  : list string :=
  match fuel with
  | O => option_list cur
  | S fuel' =>
    match s with
    | EmptyString => option_list cur
    | String _ _ =>
      let '(r, w) := utf8.DecodeRuneInString s in
      if unicode.IsSpace r
      then option_list cur ++ fieldsFrom fuel' (drop w s) None
      else fieldsFrom fuel' (drop w s)
             (Some (from_option id EmptyString cur +:+ take w s))
    end
  end.

Definition Fields (s : string) : list string :=
  fieldsFrom (String.length s) s None.

End strings.

(** ** Errors *)

Inductive NumErrKind := ErrSyntax | ErrRange.

(** The error values the program can return: the three package-level
    sentinels, one constructor per [fmt.Errorf] call site (carrying the
    text it interpolates), [*strconv.NumError] and the failures of the
    file system. *)
Inductive error :=
| ErrInvalidSyntax
| ErrUndefinedVariable
| ErrInvalidExpression
| ErrInvalidName (name : string)
| ErrOrdEmpty
| ErrUnknownOperation (op : string)
| ErrNotNumber (token : string)
| ErrNotString (token : string)
| ErrUnsupportedType (token : string)
| NumError (func num : string) (kind : NumErrKind)
| PathError (op path : string).

(** A Go result pair [(v, err)]: callers only use [v] when [err == nil]. *)
Inductive result (A : Type) :=
| Ok (a : A)
| Err (e : error).
Arguments Ok {A} a.
Arguments Err {A} e.

(** [v, err := f(); if err != nil { return err }] is the bind of this
    monad, written [v ← f; ...]. *)
Global Instance result_bind : MBind result := fun _ _ k r =>
  match r with Ok a => k a | Err e => Err e end.

(** ** Package [strconv] *)

Module strconv.
Local Open Scope Z_scope.

Definition maxUint64 : Z := 2 ^ 64 - 1.
Definition minInt64 : Z := - 2 ^ 63.
Definition maxInt64 : Z := 2 ^ 63 - 1.

(** The loop of [ParseUint] for an explicit base of at most ten: [n] is
    the value read so far.  A byte that is no digit of the base is a
    syntax error, an overflow of 64 bits a range error. *)
Fixpoint parseUintLoop (base : Z) (n : Z) (s : string) : Z + NumErrKind :=
  match s with
  | EmptyString => inl n
  | String c s' =>
    let b := byte c in
    if negb ((48 <=? b) && (b <=? 57)) then inr ErrSyntax
    else
      let d := b - 48 in
      if base <=? d then inr ErrSyntax
      else if maxUint64 / base + 1 <=? n then inr ErrRange
      else
        let n1 := n * base + d in
        if maxUint64 <? n1 then inr ErrRange
        else parseUintLoop base n1 s'
  end.

Definition ParseUint (s : string) (base : Z) : Z + NumErrKind :=
  match s with
  | EmptyString => inr ErrSyntax
  | String _ _ => parseUintLoop base 0 s
  end.

(** [ParseInt s base 64], reporting errors under the function name
    [fn]: an optional sign, then [ParseUint], then the signed range. *)
Definition parseIntAs (fn : string) (s : string) (base : Z) : result Z :=
  match s with
  | EmptyString => Err (NumError fn s ErrSyntax)
  | String c s' =>
    let neg := Ascii.eqb c "-" in
    let digits := if Ascii.eqb c "+" || neg then s' else s in
    match ParseUint digits base with
    | inr ErrSyntax => Err (NumError fn s ErrSyntax)
    | inr ErrRange => Err (NumError fn s ErrRange)
    | inl un =>
      if negb neg && (2 ^ 63 <=? un) then Err (NumError fn s ErrRange)
      else if neg && (2 ^ 63 <? un) then Err (NumError fn s ErrRange)
      else Ok (if neg then - un else un)
    end
  end.

Definition ParseInt (s : string) (base : Z) : result Z :=
  parseIntAs "ParseInt" s base.

(** [Atoi s] is [ParseInt s 10 0] with the function name replaced (its
    fast path for short inputs computes the same result). *)
Definition Atoi (s : string) : result Z := parseIntAs "Atoi" s 10.

(** Two's-complement wrap-around of the 64-bit [int]. *)
Definition wrap64 (z : Z) : Z := (z + 2 ^ 63) mod 2 ^ 64 - 2 ^ 63.

Definition digitChar (d : Z) : ascii := ascii_of_N (Z.to_N (48 + d)).

(** The digit loop of [formatBits] in base ten: the digits of [u] are
    written from the least significant one, in front of [acc]. *)
Fixpoint formatBits (fuel : nat) (u : Z) (acc : string) : string :=
  match fuel with
  | O => acc
  | S fuel' =>
    if u <? 10 then String (digitChar u) acc
    else formatBits fuel' (u / 10) (String (digitChar (u mod 10)) acc)
  end.

(** [FormatInt i 10], also the verbs [%d] and [%v] of an [int]. *)
Definition FormatInt (i : Z) : string :=
  if i <? 0
  then String "-" (formatBits (S (Z.to_nat (Z.log2 (- i)))) (- i) EmptyString)
  else formatBits (S (Z.to_nat (Z.log2 i))) i EmptyString.

End strconv.

(** ** Package [regexp]: the one pattern of the program *)

Module regexp.

(** [ReplaceAll] of the pattern [\{-[\s\S]*?-\}] by the empty string.
    The leftmost match starts at the first [{-] and, the star being
    lazy, ends at the first [-}] that follows it; when no [-}] follows
    the first [{-], none follows a later one either and nothing matches.
    [[\s\S]] accepts every rune, also the width-one [RuneError] of an
    invalid byte, so the search is on bytes. *)
Fixpoint replaceAllComments (fuel : nat) (s : string) : string :=
  match fuel with
  | O => s
  | S fuel' =>
    match strings.Index s "{-" with
    | None => s
    | Some i =>
      let rest := drop (i + 2) s in
      match strings.Index rest "-}" with
      | None => s
      | Some j => take i s +:+ replaceAllComments fuel' (drop (j + 2) rest)
      end
    end
  end.

End regexp.

(** ** Package [main] *)

(** The dynamic types an [interface{}] of the symbol table holds. *)
Inductive Value :=
| VInt (v : Z)
| VString (v : string)
| VStrings (v : list string).

Record Parser := { variables : gmap string Value }.

Definition NewParser : Parser := {| variables := ∅ |}.

(** [p.variables[name] = v] *)
Definition setVariable (p : Parser) (name : string) (v : Value) : Parser :=
  {| variables := <[name := v]> (variables p) |}.

Definition join (sep : string) (l : list string) : string :=
  match l with
  | [] => EmptyString
  | x :: l' => fold_left (fun acc y => acc +:+ sep +:+ y) l' x
  end.

(** [fmt.Sprintf("%v", v)] *)
Definition Sprint (v : Value) : string :=
  match v with
  | VInt i => strconv.FormatInt i
  | VString s => s
  | VStrings l => "[" +:+ join " " l +:+ "]"
  end.

Definition isOk {A} (r : result A) : bool :=
  match r with Ok _ => true | Err _ => false end.

Section parser.
Import strings.

Definition isNumber (s : string) : bool :=
  if HasPrefix s "0o" || HasPrefix s "0O"
  then isOk (strconv.ParseInt (drop 2 s) 8)
  else isOk (strconv.Atoi s).

Definition parseNumber (s : string) : result Z :=
  if HasPrefix s "0o" || HasPrefix s "0O"
  then strconv.ParseInt (drop 2 s) 8
  else strconv.Atoi s.

(** The test of the loop of [isValidName] on one rune:
    [!(r >= 'A' && r <= 'Z') && r != '_']. *)
Definition rejectedRune (r : Z) : bool :=
  (negb ((65 <=? r) && (r <=? 90)) && negb (r =? 95))%Z.

Definition isValidName (s : string) : bool :=
  if isEmpty s then false
  else forallb (fun r => negb (rejectedRune r)) (utf8.runes s).

Definition getNumberValue (p : Parser) (token : string) : result Z :=
  match variables p !! token with
  | Some (VInt v) => Ok v
  | Some (VString _) => Err (ErrNotNumber token)
  | Some _ => Err (ErrUnsupportedType token)
  | None => parseNumber token
  end.

Definition getStringValue (p : Parser) (token : string) : result string :=
  match variables p !! token with
  | Some (VString v) => Ok v
  | Some (VInt _) => Err (ErrNotString token)
  | Some _ => Err (ErrUnsupportedType token)
  | None =>
    if HasPrefix token at_quote && HasSuffix token quote
    then Ok (TrimSuffix (TrimPrefix token at_quote) quote)
    else Ok token
  end.

Definition evaluateExpression (p : Parser) (expr : string) : result Z :=
  let tokens := Fields expr in
  if length tokens <? 2 then Err ErrInvalidExpression
  else
    match tokens with
    | [] => Err ErrInvalidExpression
    | op :: args =>
      if String.eqb op "+" then
        match args with
        | [t1; t2] =>
          a ← getNumberValue p t1;
          b ← getNumberValue p t2;
          Ok (strconv.wrap64 (a + b))
        | _ => Err ErrInvalidExpression
        end
      else if String.eqb op "-" then
        match args with
        | [t1; t2] =>
          a ← getNumberValue p t1;
          b ← getNumberValue p t2;
          Ok (strconv.wrap64 (a - b))
        | _ => Err ErrInvalidExpression
        end
      else if String.eqb op "ord" then
        match args with
        | [t1] =>
          str ← getStringValue p t1;
          if String.length str =? 0 then Err ErrOrdEmpty
          else
            let str :=
              if HasPrefix str quote && HasSuffix str quote
              then TrimSuffix (TrimPrefix str quote) quote
              else str in
            match str with
            | EmptyString => Err ErrOrdEmpty
            | String c _ => Ok (byte c)
            end
        | _ => Err ErrInvalidExpression
        end
      else if String.eqb op "abs" then
        match args with
        | [t1] =>
          val ← getNumberValue p t1;
          if (val <? 0)%Z then Ok (strconv.wrap64 (- val)) else Ok val
        | _ => Err ErrInvalidExpression
        end
      else Err (ErrUnknownOperation op)
    end.

Definition resolveValue (p : Parser) (valueStr : string) : result Value :=
  match variables p !! valueStr with
  | Some val => Ok val
  | None =>
    if isNumber valueStr then v ← parseNumber valueStr; Ok (VInt v)
    else if HasPrefix valueStr at_quote && HasSuffix valueStr quote
    then Ok (VString (TrimSuffix (TrimPrefix valueStr at_quote) quote))
    else Ok (VString valueStr)
  end.

End parser.

Section conversion.
Import strings.

(** The loop that resolves the elements of a bracketed list, the same
    in [handleConstant] and in [Parse]: empty elements are skipped, each
    other one is resolved and rendered with [%v]. *)
Fixpoint resolveElements (p : Parser) (values : list string)
  : result (list string) :=
  match values with
  | [] => Ok []
  | v :: values' =>
    let v := TrimSpace v in
    if isEmpty v then resolveElements p values'
    else
      resolved ← resolveValue p v;
      array ← resolveElements p values';
      Ok (Sprint resolved :: array)
  end.

(** [handleConstant] returns the parser after the call and the error. *)
Definition handleConstant (p : Parser) (line : string)
  : Parser * option error :=
  let line := TrimSuffix line ";" in
  match Split line ":=" with
  | [part0; part1] =>
    let name := TrimSpace part0 in
    let valueStr := TrimSpace part1 in
    if negb (isValidName name) then (p, Some (ErrInvalidName name))
    else if HasPrefix valueStr "?(" && HasSuffix valueStr ")" then
      let expr := TrimPrefix valueStr "?(" in
      let expr := TrimSuffix expr ")" in
      match evaluateExpression p expr with
      | Err err => (p, Some err)
      | Ok value => (setVariable p name (VInt value), None)
      end
    else if HasPrefix valueStr "[" && HasSuffix valueStr "]" then
      let arrayStr := TrimPrefix valueStr "[" in
      let arrayStr := TrimSuffix arrayStr "]" in
      match resolveElements p (Split arrayStr ",") with
      | Err err => (p, Some err)
      | Ok array => (setVariable p name (VStrings array), None)
      end
    else if HasPrefix valueStr at_quote && HasSuffix valueStr quote then
      let value := TrimPrefix valueStr at_quote in
      let value := TrimSuffix value quote in
      (setVariable p name (VString value), None)
    else if isNumber valueStr then
      match parseNumber valueStr with
      | Err err => (p, Some err)
      | Ok value => (setVariable p name (VInt value), None)
      end
    else
      match variables p !! valueStr with
      | Some val => (setVariable p name val, None)
      | None => (setVariable p name (VString valueStr), None)
      end
  | _ => (p, Some ErrInvalidSyntax)
  end.

(** The quoting rule for one element of a [[]string] value. *)
Definition formatItem (item : string) : string :=
  if negb (isOk (strconv.Atoi item))
     && negb (String.eqb item "true") && negb (String.eqb item "false")
  then quote +:+ item +:+ quote
  else item.

Definition formatValue (value : Value) : string :=
  match value with
  | VString v =>
    if String.eqb v "true" || String.eqb v "false" then v
    else quote +:+ v +:+ quote
  | VInt v => strconv.FormatInt v
  | VStrings v => "[" +:+ join ", " (formatItem <$> v) +:+ "]"
  end.

(** [handleKeyValue] returns the contents of the output builder after
    the call and the error. *)
Definition handleKeyValue (p : Parser) (line : string) (output : string)
  : string * option error :=
  match SplitN2 line "=" with
  | [part0; part1] =>
    let key := TrimSpace part0 in
    let valueStr := TrimSpace part1 in
    match resolveValue p valueStr with
    | Err err => (output, Some err)
    | Ok value =>
      (output +:+ key +:+ " = " +:+ formatValue value +:+ nl, None)
    end
  | _ => (output, Some ErrInvalidSyntax)
  end.

(** The body of the loop of [Parse] over the lines, on the parser and
    the output builder; [Some err] is the [return err] that leaves the
    loop. *)
Definition processLine (st : Parser * string) (line : string)
  : (Parser * string) * option error :=
  let '(p, output) := st in
  let line := TrimSpace line in
  if isEmpty line then (st, None)
  else if HasPrefix line "//" then (st, None)
  else if Contains line ":=" && HasSuffix line ";" then
    let '(p', err) := handleConstant p line in ((p', output), err)
  else if HasPrefix line "[" && HasSuffix line "]" then
    let inner := TrimPrefix line "[" in
    let inner := TrimSuffix inner "]" in
    let inner := TrimSpace inner in
    if Contains inner "," && negb (Contains inner "=") then
      match resolveElements p (Split inner ",") with
      | Err err => (st, Some err)
      | Ok array =>
        let arrayName :=
          "_array_" +:+ strconv.FormatInt (Z.of_nat (size (variables p))) in
        ((setVariable p arrayName (VStrings array), output), None)
      end
    else ((p, output +:+ "[" +:+ inner +:+ "]" +:+ nl), None)
  else if Contains line "=" && negb (Contains line ":=") then
    let '(output', err) := handleKeyValue p line output in
    ((p, output'), err)
  else (st, None).

Fixpoint processLines (st : Parser * string) (lines : list string)
  : (Parser * string) * option error :=
  match lines with
  | [] => (st, None)
  | line :: lines' =>
    match processLine st line with
    | (st', Some err) => (st', Some err)
    | (st', None) => processLines st' lines'
    end
  end.

Definition removeMultilineComments (content : string) : string :=
  regexp.replaceAllComments (String.length content) content.

(** The part of [Parse] between reading and writing. *)
Definition convert (p : Parser) (content : string)
  : (Parser * string) * option error :=
  let content := removeMultilineComments content in
  let lines := Split content nl in
  processLines (p, EmptyString) lines.

End conversion.

(** ** The file system *)

(** [os.ReadFile] and [os.WriteFile] on an abstract file system: reading
    leaves it as it is, writing gives the file system after the call. *)
Class FileSystem (FS : Type) := {
  ReadFile : FS -> string -> result string;
  WriteFile : FS -> string -> string -> FS * option error
}.

(** Files in memory: reading a missing path fails, writing creates or
    replaces the file. *)
Global Instance mem_fs : FileSystem (gmap string string) := {
  ReadFile fs path :=
    match fs !! path with
    | Some data => Ok data
    | None => Err (PathError "open" path)
    end;
  WriteFile fs path data := (<[path := data]> fs, None)
}.

Definition Parse {FS : Type} `{!FileSystem FS} (p : Parser) (fs : FS)
    (inputPath outputPath : string) : (Parser * FS) * option error :=
  match ReadFile fs inputPath with
  | Err err => ((p, fs), Some err)
  | Ok content =>
    match convert p content with
    | ((p', _), Some err) => ((p', fs), Some err)
    | ((p', output), None) =>
      let '(fs', err) := WriteFile fs outputPath output in ((p', fs'), err)
    end
  end.

(** ** Reading a line the way the program does *)

Section shapes.
Import strings.

(** [line] is read by [handleConstant] as the declaration of [name] with
    the value text [valueStr]: exactly one [:=] once the final [;] is
    removed, and the two sides trimmed.  Every line made of a name,
    [ := ], a value text and [;] is read so ([declaration_intro]). *)
Definition declaration (line name valueStr : string) : Prop :=
  exists part0 part1,
    Split (TrimSuffix line ";") ":=" = [part0; part1]
    /\ TrimSpace part0 = name /\ TrimSpace part1 = valueStr.

(** [valueStr] is read as the expression form with the given tokens
    ([expression_intro]: the tokens are the fields between [?(] and
    [)]). *)
Definition expression (valueStr : string) (tokens : list string) : Prop :=
  HasPrefix valueStr "?(" = true /\ HasSuffix valueStr ")" = true
  /\ Fields (TrimSuffix (TrimPrefix valueStr "?(") ")") = tokens.

(** [line] is read by [handleKeyValue] as the pair [key = valueStr]
    ([keyvalue_intro]). *)
Definition keyvalue (line key valueStr : string) : Prop :=
  exists part0 part1,
    SplitN2 line "=" = [part0; part1]
    /\ TrimSpace part0 = key /\ TrimSpace part1 = valueStr.

(** The loop of [Parse] hands the raw line [raw] to [handleConstant],
    as the trimmed [line]: the tests of the loop body that come before
    the call ([dispatched_constant_intro]). *)
Definition dispatched_constant (raw line : string) : Prop :=
  TrimSpace raw = line /\ isEmpty line = false
  /\ HasPrefix line "//" = false
  /\ Contains line ":=" = true /\ HasSuffix line ";" = true.

(** The text of which [ord] takes the first byte: one pair of enclosing
    double quotes is removed. *)
Definition ordText (str : string) : string :=
  if HasPrefix str quote && HasSuffix str quote
  then TrimSuffix (TrimPrefix str quote) quote
  else str.

End shapes.

(** ** What the specification talks about *)

(** The pattern [^[A-Z_]+$]: at least one byte, each an upper-case ASCII
    letter or an underscore. *)
Definition name_char (c : ascii) : Prop :=
  (65 <= byte c <= 90)%Z \/ byte c = 95%Z.

Definition matches_name (s : string) : Prop :=
  s <> EmptyString /\ Forall name_char (list_ascii_of_string s).

(** The code point of the first character of a text. *)
Definition firstCodePoint (text : string) : Z :=
  fst (utf8.DecodeRuneInString text).

(** The value of a string of digits in a base, most significant first. *)
Definition digit_step (base : Z) (acc : Z) (c : ascii) : Z :=
  (acc * base + (byte c - 48))%Z.

Definition digitsValue (base : Z) (digits : string) : Z :=
  fold_left (digit_step base) (list_ascii_of_string digits) 0%Z.

Definition is_digit (base : Z) (c : ascii) : Prop :=
  (48 <= byte c < 48 + base)%Z.

Definition all_digits (base : Z) (digits : string) : Prop :=
  digits <> EmptyString /\ Forall (is_digit base) (list_ascii_of_string digits).

(** [s] is the decimal rendering of the natural number [v], without
    leading zeros. *)
Definition decimal_of (s : string) (v : Z) : Prop :=
  all_digits 10 s /\ digitsValue 10 s = v
  /\ (forall r, s = String "0" r -> r = EmptyString).

(** The runes [isValidName] lets pass. *)
Definition name_rune (r : Z) : bool := negb (rejectedRune r).

(** An ASCII byte that is no white space, and a text that starts and
    ends with such bytes. *)
Definition graphic (c : ascii) : Prop :=
  (byte c < 128)%Z /\ unicode.IsSpace (byte c) = false.

Definition graphic_ends (s : string) : Prop :=
  exists c0 r0 r1 c1,
    s = String c0 r0 /\ s = r1 +:+ String c1 EmptyString
    /\ graphic c0 /\ graphic c1.

(** An ASCII white-space byte (space, tab, line feed, vertical tab, form
    feed, carriage return), and a text made of such bytes. *)
Definition blank (c : ascii) : Prop :=
  (byte c < 128)%Z /\ unicode.IsSpace (byte c) = true.

Definition blanks (s : string) : Prop :=
  Forall blank (list_ascii_of_string s).

(** The input of [TestParseMultilineComments], for any comment body:
    what follows the comment, and the whole. *)
Definition afterComment : string :=
  nl +:+ "VALUE := 42;" +:+ nl
  +:+ nl
  +:+ "[section]" +:+ nl
  +:+ "key = VALUE" +:+ nl.

Definition commentedInput (body : string) : string :=
  nl +:+ "{-" +:+ body +:+ "-}" +:+ afterComment.

(** The error of [handleConstant] for a name it rejects. *)
Definition name_error (e : error) : Prop :=
  match e with ErrInvalidName _ => True | _ => False end.

(** ** Invariants of the symbol table *)

Definition int64 (v : Z) : Prop :=
  (strconv.minInt64 <= v <= strconv.maxInt64)%Z.

(** Every integer of the table is a 64-bit value. *)
Definition int_table (p : Parser) : Prop :=
  forall k v, variables p !! k = Some (VInt v) -> int64 v.

(** The name [Parse] gives to the anonymous array it stores when [n]
    symbols are bound. *)
Definition arrayName (n : nat) : string :=
  "_array_" +:+ strconv.FormatInt (Z.of_nat n).

(** Every bound name is the name of a constant or the name of an
    anonymous array numbered below the size of the table. *)
Definition names_table (p : Parser) : Prop :=
  forall k, is_Some (variables p !! k) ->
    matches_name k \/ exists n, n < size (variables p) /\ k = arrayName n.

(** The errors the conversion of a text can end with. *)
Definition conversion_error (e : error) : Prop :=
  match e with
  | ErrUndefinedVariable | PathError _ _ => False
  | _ => True
  end.

(** The errors of [evaluateExpression]. *)
Definition evaluation_error (e : error) : Prop :=
  match e with
  | ErrInvalidExpression | ErrOrdEmpty | ErrUnknownOperation _
  | ErrNotNumber _ | ErrNotString _ | ErrUnsupportedType _
  | NumError _ _ _ => True
  | _ => False
  end.

(** The elements of a bracketed list that are not blank, and the text
    stored for one of them. *)
Definition nonblank (v : string) : bool := negb (isEmpty (strings.TrimSpace v)).

Definition elementText (p : Parser) (v : string) : string :=
  match resolveValue p (strings.TrimSpace v) with
  | Ok val => Sprint val
  | Err _ => EmptyString
  end.

(** What a key-value line shows of a text. *)
Definition shownText (text : string) : string :=
  if String.eqb text "true" || String.eqb text "false" then text
  else quote +:+ text +:+ quote.

(** * Facts about byte strings *)

Section string_facts.
Import strings.

Lemma app_cons (c : ascii) (s t : string) :
  String c s +:+ t = String c (s +:+ t).
Proof. reflexivity. Qed.

Lemma app_empty_l (s : string) : EmptyString +:+ s = s.
Proof. reflexivity. Qed.

Lemma app_empty_r (s : string) : s +:+ EmptyString = s.
Proof. induction s as [|c s IH]; [reflexivity|]. by rewrite app_cons, IH. Qed.

Lemma app_assoc_s (s t u : string) : (s +:+ t) +:+ u = s +:+ (t +:+ u).
Proof.
  induction s as [|c s IH]; [reflexivity|]. by rewrite !app_cons, IH.
Qed.

Lemma length_app_s (s t : string) :
  String.length (s +:+ t) = String.length s + String.length t.
Proof.
  induction s as [|c s IH]; [reflexivity|].
  rewrite app_cons. simpl. by rewrite IH.
Qed.

Lemma drop_app (s t : string) : drop (String.length s) (s +:+ t) = t.
Proof. induction s as [|c s IH]; [by destruct t|]. by rewrite app_cons. Qed.

Lemma take_app (s t : string) : take (String.length s) (s +:+ t) = s.
Proof.
  induction s as [|c s IH]; [by destruct t|].
  rewrite app_cons. simpl. by rewrite IH.
Qed.

Lemma take_all (s : string) : take (String.length s) s = s.
Proof. induction s as [|c s IH]; [reflexivity|]. simpl. by rewrite IH. Qed.

Lemma HasPrefix_inv (s prefix : string) :
  HasPrefix s prefix = true -> s = prefix +:+ drop (String.length prefix) s.
Proof.
  revert s. induction prefix as [|a q IH]; intros s H.
  - by destruct s.
  - destruct s as [|b s]; [discriminate|]. simpl in H.
    apply andb_true_iff in H as [Hab Hq]. apply Ascii.eqb_eq in Hab as ->.
    rewrite app_cons. simpl. f_equal. by apply IH.
Qed.

Lemma HasPrefix_app (prefix s : string) : HasPrefix (prefix +:+ s) prefix = true.
Proof.
  induction prefix as [|a q IH]; [by destruct s|].
  rewrite app_cons. simpl. by rewrite Ascii.eqb_refl, IH.
Qed.

(** Two prefixes of one string that differ in their first byte. *)
Lemma HasPrefix_first (s : string) (a b : ascii) (q r : string) :
  HasPrefix s (String a q) = true -> a <> b ->
  HasPrefix s (String b r) = false.
Proof.
  destruct s as [|c s]; [discriminate|]. simpl. intros H Hab.
  apply andb_true_iff in H as [H _]. apply Ascii.eqb_eq in H as ->.
  apply Ascii.eqb_neq in Hab. by rewrite Ascii.eqb_sym, Hab.
Qed.

Lemma HasPrefix_nonempty (s : string) (a : ascii) (q : string) :
  HasPrefix s (String a q) = true -> isEmpty s = false.
Proof. by destruct s. Qed.

(** A string has one last byte. *)
Lemma length_drop (n : nat) (s : string) :
  String.length (drop n s) = String.length s - n.
Proof.
  revert s. induction n as [|n IH]; intros [|c s]; simpl; try lia. apply IH.
Qed.

Lemma HasSuffix_last (s : string) (a b : ascii) :
  HasSuffix s (String a EmptyString) = true -> a <> b ->
  HasSuffix s (String b EmptyString) = false.
Proof.
  unfold HasSuffix. simpl String.length. intros H Hab.
  apply andb_true_iff in H as [Hlen H]. rewrite Hlen. simpl.
  apply String.eqb_eq in H. rewrite H.
  apply String.eqb_neq. congruence.
Qed.

End string_facts.

(** * The loops of the library stay within their bounds *)

Section bound_facts.
Import strings.

(** The decoder consumes at least one byte of a non-empty string and
    never more than the string has. *)
Lemma decode_width (c : ascii) (s : string) :
  1 <= snd (utf8.DecodeRuneInString (String c s)) <= S (String.length s).
Proof.
  unfold utf8.DecodeRuneInString.
  repeat (case_match; cbn [snd]; try lia); subst; cbn [String.length]; lia.
Qed.

Lemma decode_ascii (c : ascii) (s : string) :
  (byte c < 128)%Z -> utf8.DecodeRuneInString (String c s) = (byte c, 1).
Proof.
  intros H. unfold utf8.DecodeRuneInString.
  apply Z.ltb_lt in H. by rewrite H.
Qed.

(** More fuel than the length of the string changes nothing. *)
Lemma trimLeftFrom_fuel (n m : nat) (s : string) :
  String.length s <= n -> String.length s <= m ->
  trimLeftFrom n s = trimLeftFrom m s.
Proof.
  revert m s. induction n as [|n IH]; intros m s Hn Hm.
  - destruct s; [|simpl in Hn; lia]. by destruct m.
  - destruct s as [|c s]; [by destruct m|].
    destruct m as [|m]; [simpl in Hm; lia|].
    cbn [trimLeftFrom]. pose proof (decode_width c s) as Hw.
    destruct (utf8.DecodeRuneInString (String c s)) as [r w]. cbn [snd] in Hw.
    destruct (unicode.IsSpace r); [|done].
    simpl in Hn, Hm. apply IH; rewrite length_drop; simpl; lia.
Qed.

Lemma fieldsFrom_fuel (n m : nat) (s : string) (cur : option string) :
  String.length s <= n -> String.length s <= m ->
  fieldsFrom n s cur = fieldsFrom m s cur.
Proof.
  revert m s cur. induction n as [|n IH]; intros m s cur Hn Hm.
  - destruct s; [|simpl in Hn; lia]. by destruct m.
  - destruct s as [|c s]; [by destruct m|].
    destruct m as [|m]; [simpl in Hm; lia|].
    cbn [fieldsFrom]. pose proof (decode_width c s) as Hw.
    destruct (utf8.DecodeRuneInString (String c s)) as [r w]. cbn [snd] in Hw.
    simpl in Hn, Hm.
    destruct (unicode.IsSpace r);
      [f_equal|]; apply IH; rewrite length_drop; simpl; lia.
Qed.

Lemma runesFrom_fuel (n m : nat) (s : string) :
  String.length s <= n -> String.length s <= m ->
  utf8.runesFrom n s = utf8.runesFrom m s.
Proof.
  revert m s. induction n as [|n IH]; intros m s Hn Hm.
  - destruct s; [|simpl in Hn; lia]. by destruct m.
  - destruct s as [|c s]; [by destruct m|].
    destruct m as [|m]; [simpl in Hm; lia|].
    cbn [utf8.runesFrom]. pose proof (decode_width c s) as Hw.
    destruct (utf8.DecodeRuneInString (String c s)) as [r w]. cbn [snd] in Hw.
    simpl in Hn, Hm. f_equal. apply IH; rewrite length_drop; simpl; lia.
Qed.

(** Stepping back to the start of the last rune: four rounds are all
    the loop can make, and it never moves forward. *)
Lemma backToStart_le (fuel : nat) (s : string) (start lim : Z) :
  (utf8.backToStart fuel s start lim <= start)%Z.
Proof.
  revert start. induction fuel as [|fuel IH]; intros start; cbn; [lia|].
  repeat case_match; try lia. specialize (IH (start - 1)%Z). lia.
Qed.

Lemma backToStart_fuel (fuel : nat) (s : string) (n : Z) :
  4 <= fuel ->
  utf8.backToStart fuel s (n - 2) (Z.max 0 (n - 4))
  = utf8.backToStart 4 s (n - 2) (Z.max 0 (n - 4)).
Proof.
  intros Hfuel. do 4 (destruct fuel as [|fuel]; [lia|]).
  cbn [utf8.backToStart].
  repeat (case_match; try reflexivity).
  all: destruct fuel; cbn [utf8.backToStart]; try reflexivity.
  all: match goal with
       | |- context [(?a <? ?b)%Z] =>
         destruct (Z.ltb_spec a b); [reflexivity|lia]
       end.
Qed.

Lemma decodeLast_width (c : ascii) (s : string) :
  1 <= snd (utf8.DecodeLastRuneInString (String c s)).
Proof.
  unfold utf8.DecodeLastRuneInString.
  set (n := Z.of_nat (String.length (String c s))).
  assert (Hn : (1 <= n)%Z) by (unfold n; simpl; lia).
  destruct (Z.eqb_spec n 0); [lia|].
  destruct (_ <? 128)%Z; [simpl; lia|].
  pose proof (backToStart_le 4 (String c s) (n - 2) (Z.max 0 (n - 4))) as Hle.
  set (start := Z.max 0 _).
  assert (Hstart : (0 <= start < n)%Z) by (unfold start; lia).
  destruct (utf8.DecodeRuneInString _) as [r size].
  destruct (Z.eqb_spec (start + Z.of_nat size) n); simpl; lia.
Qed.

Lemma take_nonempty (i : nat) (c : ascii) (s : string) :
  take (S i) (String c s) = String c (take i s).
Proof. reflexivity. Qed.

Lemma lastIndexNotSpace_fuel (n m i : nat) (s : string) :
  i <= n -> i <= m -> i <= String.length s ->
  lastIndexNotSpace n s i = lastIndexNotSpace m s i.
Proof.
  revert m i. induction n as [|n IH]; intros m i Hn Hm Hi.
  - assert (i = 0) as -> by lia. by destruct m.
  - destruct i as [|i]; [by destruct m|].
    destruct m as [|m]; [lia|].
    cbn [lastIndexNotSpace].
    destruct s as [|c s]; [simpl in Hi; lia|].
    rewrite take_nonempty. pose proof (decodeLast_width c (take i s)) as Hw.
    destruct (utf8.DecodeLastRuneInString _) as [r size]. cbn [snd] in Hw.
    destruct (unicode.IsSpace r); [|done].
    apply IH; lia.
Qed.

(** An occurrence found by [Index] lies inside the string. *)
Lemma HasPrefix_length (s prefix : string) :
  HasPrefix s prefix = true -> String.length prefix <= String.length s.
Proof.
  revert s. induction prefix as [|a q IH]; intros s H; [simpl; lia|].
  destruct s as [|b s]; [discriminate|]. simpl in H.
  apply andb_true_iff in H as [_ H]. apply IH in H. simpl. lia.
Qed.

Lemma Index_bound (s sep : string) (i : nat) :
  Index s sep = Some i -> i + String.length sep <= String.length s.
Proof.
  revert i. induction s as [|c s IH]; intros i; cbn [Index].
  - destruct (HasPrefix EmptyString sep) eqn:E; [|discriminate].
    intros [= <-]. by apply HasPrefix_length in E.
  - destruct (HasPrefix (String c s) sep) eqn:E.
    + intros [= <-]. by apply HasPrefix_length in E.
    + destruct (Index s sep) as [j|]; [|discriminate].
      intros [= <-]. specialize (IH j eq_refl). simpl. lia.
Qed.

(** [Split] with a non-empty separator: the bound [len(s)] on the number
    of cuts is never the reason the loop stops. *)
Lemma genSplit_fuel (n m : nat) (s sep : string) :
  0 < String.length sep ->
  String.length s <= n -> String.length s <= m ->
  genSplit n s sep = genSplit m s sep.
Proof.
  intros Hsep. revert m s. induction n as [|n IH]; intros m s Hn Hm.
  - destruct s; [|simpl in Hn; lia].
    destruct m; [done|]. cbn [genSplit Index].
    destruct sep; [simpl in Hsep; lia|]. reflexivity.
  - destruct m as [|m].
    + destruct s; [|simpl in Hm; lia]. cbn [genSplit Index].
      destruct sep; [simpl in Hsep; lia|]. reflexivity.
    + cbn [genSplit]. destruct (Index s sep) as [i|] eqn:E; [|done].
      apply Index_bound in E. f_equal.
      apply IH; rewrite length_drop; lia.
Qed.

Lemma replaceAllComments_fuel (n m : nat) (s : string) :
  String.length s <= n -> String.length s <= m ->
  regexp.replaceAllComments n s = regexp.replaceAllComments m s.
Proof.
  revert m s. induction n as [|n IH]; intros m s Hn Hm.
  - destruct s; [|simpl in Hn; lia]. by destruct m.
  - destruct m as [|m].
    + destruct s; [|simpl in Hm; lia]. reflexivity.
    + cbn [regexp.replaceAllComments].
      destruct (Index s "{-") as [i|] eqn:Ei; [|done].
      destruct (Index (drop (i + 2) s) "-}") as [j|] eqn:Ej; [|done].
      apply Index_bound in Ei. apply Index_bound in Ej.
      rewrite length_drop in Ej. simpl in Ei, Ej.
      f_equal. apply IH; rewrite !length_drop; lia.
Qed.

End bound_facts.

(** * Runes and bytes *)

Section rune_facts.
Local Open Scope Z_scope.

Lemma byte_range (c : ascii) : 0 <= byte c < 256.
Proof. unfold byte. pose proof (N_ascii_bounded c). lia. Qed.

Lemma lor_lower (k a b : Z) :
  0 <= k -> 0 <= a -> 0 <= b -> 2 ^ k <= a -> 2 ^ k <= Z.lor a b.
Proof.
  intros Hk Ha Hb Hka.
  assert (0 < 2 ^ k) by (apply Z.pow_pos_nonneg; lia).
  assert (Hnn : 0 <= Z.lor a b) by (apply Z.lor_nonneg; lia).
  assert (Hnz : Z.lor a b <> 0).
  { intros [H0 _]%Z.lor_eq_0_iff. lia. }
  apply Z.log2_le_pow2; [lia|].
  rewrite Z.log2_lor by lia.
  apply Z.log2_le_pow2 in Hka; lia.
Qed.

Lemma land_low (n a : Z) : 0 <= n -> Z.land a (2 ^ n - 1) = a mod 2 ^ n.
Proof.
  intros Hn. rewrite <- Z.land_ones by lia. f_equal.
  rewrite Z.ones_equiv. lia.
Qed.

Lemma lor_lower_or (k a b : Z) :
  0 <= k -> 0 <= a -> 0 <= b -> 2 ^ k <= a \/ 2 ^ k <= b ->
  2 ^ k <= Z.lor a b.
Proof.
  intros Hk Ha Hb [H|H]; [by apply lor_lower|].
  rewrite Z.lor_comm. by apply lor_lower.
Qed.

(** The payload of one byte of an encoding, shifted into place. *)
Lemma payload_lower (b mask n sh : Z) :
  mask = 2 ^ n - 1 -> 0 <= n -> 0 <= sh ->
  2 ^ 7 <= (b mod 2 ^ n) * 2 ^ sh -> 2 ^ 7 <= Z.shiftl (Z.land b mask) sh.
Proof.
  intros -> Hn Hsh Hb. rewrite land_low by lia.
  by rewrite Z.shiftl_mul_pow2 by lia.
Qed.

Lemma shifted_nonneg (b mask sh : Z) :
  0 <= b -> 0 <= mask -> 0 <= sh -> 0 <= Z.shiftl (Z.land b mask) sh.
Proof.
  intros. apply Z.shiftl_nonneg. apply Z.land_nonneg. lia.
Qed.

Lemma land_nonneg_r (b mask : Z) : 0 <= mask -> 0 <= Z.land b mask.
Proof. intros. apply Z.land_nonneg. lia. Qed.

Ltac nonneg_bits :=
  repeat (apply Z.lor_nonneg; split);
  first [apply shifted_nonneg; lia | apply land_nonneg_r; lia].

Ltac payload mask n sh :=
  apply (payload_lower _ mask n sh); [reflexivity|lia|lia|];
  let m := eval compute in (2 ^ n)%Z in change (2 ^ n)%Z with m;
  let m := eval compute in (2 ^ sh)%Z in change (2 ^ sh)%Z with m;
  change (2 ^ 7)%Z with 128%Z;
  Z.div_mod_to_equations; lia.

(** A string that starts with a byte of 128 or more starts, for the
    decoder, with a rune of 128 or more: [RuneError] or a code point
    outside ASCII. *)
Lemma decode_non_ascii (c : ascii) (r : string) :
  128 <= byte c -> 128 <= fst (utf8.DecodeRuneInString (String c r)).
Proof.
  intros Hc. pose proof (byte_range c) as Hb0.
  unfold utf8.DecodeRuneInString, utf8.RuneError, utf8.cont.
  repeat (case_match; simpl fst; try lia);
    repeat match goal with
    | H : (_ <? _) = true |- _ => apply Z.ltb_lt in H
    | H : (_ <? _) = false |- _ => apply Z.ltb_ge in H
    | H : (_ =? _) = true |- _ => apply Z.eqb_eq in H
    | H : (_ =? _) = false |- _ => apply Z.eqb_neq in H
    | H : _ || _ = false |- _ => apply orb_false_iff in H as [? ?]
    | H : negb _ = false |- _ => apply negb_false_iff in H
    | H : _ && _ = true |- _ => apply andb_true_iff in H as [? ?]
    | H : (_ <=? _) = true |- _ => apply Z.leb_le in H
    | H : (_ <=? _)%nat = false |- _ => apply Nat.leb_gt in H
    | H : (_ <=? _)%nat = true |- _ => apply Nat.leb_le in H
    end; try lia;
    repeat match goal with
    | a : ascii |- _ =>
      lazymatch goal with
      | _ : 0 <= byte a < 256 |- _ => fail
      | _ => pose proof (byte_range a)
      end
    end.
  all: change 128 with (2 ^ 7).
  - apply lor_lower; [lia|nonneg_bits|nonneg_bits|].
    payload 31 5 6.
  - apply lor_lower; [lia|nonneg_bits|nonneg_bits|].
    apply lor_lower_or; [lia|nonneg_bits|nonneg_bits|]. right. payload 63 6 6.
  - apply lor_lower; [lia|nonneg_bits|nonneg_bits|].
    apply lor_lower; [lia|nonneg_bits|nonneg_bits|]. payload 15 4 12.
  - apply lor_lower; [lia|nonneg_bits|nonneg_bits|].
    apply lor_lower; [lia|nonneg_bits|nonneg_bits|]. payload 15 4 12.
  - do 2 (apply lor_lower; [lia|nonneg_bits|nonneg_bits|]).
    apply lor_lower_or; [lia|nonneg_bits|nonneg_bits|]. right. payload 63 6 12.
  - do 3 (apply lor_lower; [lia|nonneg_bits|nonneg_bits|]). payload 7 3 18.
  - do 3 (apply lor_lower; [lia|nonneg_bits|nonneg_bits|]). payload 7 3 18.
Qed.

End rune_facts.

(** * Numerals *)

Section numeral_facts.
Local Open Scope Z_scope.

Lemma digitsValue_fold base digits :
  digitsValue base digits
  = fold_left (digit_step base) (list_ascii_of_string digits) 0.
Proof. reflexivity. Qed.

Lemma fold_digits_lower base l n :
  0 <= n -> 1 <= base -> Forall (is_digit base) l ->
  n <= fold_left (digit_step base) l n.
Proof.
  intros Hn Hbase Hl. revert n Hn.
  induction Hl as [|c l Hc Hl IH]; intros n Hn; simpl; [lia|].
  unfold is_digit in Hc.
  etrans; [|apply IH]; unfold digit_step; nia.
Qed.

(** On octal digits the loop of [ParseUint] computes the base-8 value,
    as long as that value fits 64 bits. *)
Lemma parseUintLoop_octal digits n :
  0 <= n -> Forall (is_digit 8) (list_ascii_of_string digits) ->
  fold_left (digit_step 8) (list_ascii_of_string digits) n
    <= strconv.maxUint64 ->
  strconv.parseUintLoop 8 n digits
  = inl (fold_left (digit_step 8) (list_ascii_of_string digits) n).
Proof.
  revert n. induction digits as [|c digits IH]; intros n Hn Hd Hmax;
    [reflexivity|].
  cbn [list_ascii_of_string fold_left] in *.
  apply Forall_cons in Hd as [Hc Hd]. unfold is_digit in Hc.
  assert (Hn1 : 0 <= digit_step 8 n c) by (unfold digit_step; lia).
  pose proof (fold_digits_lower 8 _ _ Hn1 ltac:(lia) Hd) as Hlow.
  cbn [strconv.parseUintLoop].
  destruct (Z.leb_spec 48 (byte c)); [|lia].
  destruct (Z.leb_spec (byte c) 57); [|lia]. cbn [andb negb].
  destruct (Z.leb_spec 8 (byte c - 48)); [lia|].
  assert (Hfit : n * 8 + (byte c - 48) <= 18446744073709551615).
  { change (digit_step 8 n c <= 2 ^ 64 - 1). etrans; [exact Hlow|exact Hmax]. }
  unfold strconv.maxUint64 in *.
  change (2 ^ 64 - 1) with 18446744073709551615 in *.
  change (18446744073709551615 / 8 + 1) with 2305843009213693952.
  destruct (Z.leb_spec 2305843009213693952 n); [lia|].
  destruct (Z.ltb_spec 18446744073709551615 (n * 8 + (byte c - 48))); [lia|].
  apply IH; [lia|done|done].
Qed.

Lemma digit_not_sign (c : ascii) (base : Z) :
  is_digit base c -> Ascii.eqb c "+" = false /\ Ascii.eqb c "-" = false.
Proof.
  unfold is_digit. intros H.
  split; apply Ascii.eqb_neq; intros ->;
    [change (byte "+") with 43 in H|change (byte "-") with 45 in H]; lia.
Qed.

Lemma ParseInt_octal digits :
  all_digits 8 digits ->
  digitsValue 8 digits <= strconv.maxInt64 ->
  strconv.ParseInt digits 8 = Ok (digitsValue 8 digits).
Proof.
  intros [Hne Hd] Hmax. rewrite digitsValue_fold in *.
  destruct digits as [|c digits]; [done|].
  unfold strconv.ParseInt, strconv.parseIntAs.
  pose proof Hd as Hd'. cbn [list_ascii_of_string] in Hd'.
  apply Forall_cons in Hd' as [Hc _].
  destruct (digit_not_sign c 8 Hc) as [-> ->]. cbn [orb].
  unfold strconv.ParseUint.
  unfold strconv.maxInt64 in Hmax.
  rewrite parseUintLoop_octal; [|lia|done|unfold strconv.maxUint64; lia].
  cbn [negb andb].
  destruct (Z.leb_spec (2 ^ 63) (fold_left (digit_step 8)
              (list_ascii_of_string (String c digits)) 0)); [lia|done].
Qed.

Lemma byte_digitChar d : 0 <= d < 10 -> byte (strconv.digitChar d) = 48 + d.
Proof.
  intros H. unfold byte, strconv.digitChar.
  rewrite N_ascii_embedding; lia.
Qed.

Lemma list_ascii_app (s t : string) :
  list_ascii_of_string (s +:+ t)
  = (list_ascii_of_string s ++ list_ascii_of_string t)%list.
Proof.
  induction s as [|c s IH]; [reflexivity|].
  rewrite app_cons. simpl. by rewrite IH.
Qed.

(** The digits [formatBits] writes in front of [acc]: decimal digits,
    at least one, that denote [u] and start with no zero unless [u] is
    zero. *)
Lemma formatBits_digits (fuel : nat) (u : Z) (acc : string) :
  (0 < fuel)%nat -> 0 <= u < 2 ^ Z.of_nat fuel ->
  exists l,
    list_ascii_of_string (strconv.formatBits fuel u acc)
      = (l ++ list_ascii_of_string acc)%list
    /\ Forall (is_digit 10) l
    /\ (forall m, fold_left (digit_step 10) l m
                  = m * 10 ^ Z.of_nat (length l) + u)
    /\ match l with
       | [] => False
       | c :: l' => byte c = 48 -> u = 0 /\ l' = []
       end.
Proof.
  revert u acc. induction fuel as [|fuel IH]; intros u acc Hfuel Hu; [lia|].
  cbn [strconv.formatBits].
  destruct (Z.ltb_spec u 10) as [Hlt|Hge].
  - exists [strconv.digitChar u]. split; [reflexivity|].
    pose proof (byte_digitChar u ltac:(lia)) as Hb.
    split; [|split].
    + constructor; [|constructor]. unfold is_digit. lia.
    + intros m. cbn [fold_left length]. unfold digit_step. rewrite Hb.
      change (10 ^ Z.of_nat 1) with 10. lia.
    + intros H0. split; [lia|done].
  - assert (Hq : 0 <= u / 10 < 2 ^ Z.of_nat fuel).
    { split; [apply Z.div_pos; lia|].
      rewrite Nat2Z.inj_succ, Z.pow_succ_r in Hu by lia.
      apply Z.div_lt_upper_bound; lia. }
    assert (Hpos : (0 < fuel)%nat).
    { destruct fuel; [|lia]. change (2 ^ Z.of_nat 0) with 1 in Hq.
      assert (1 <= u / 10) by (apply Z.div_le_lower_bound; lia). lia. }
    destruct (IH (u / 10) (String (strconv.digitChar (u mod 10)) acc) Hpos Hq)
      as (l & Hl & Hdig & Hval & Hhead).
    pose proof (Z.mod_pos_bound u 10 ltac:(lia)) as Hmod.
    pose proof (byte_digitChar (u mod 10) Hmod) as Hb.
    exists (l ++ [strconv.digitChar (u mod 10)])%list. split; [|split; [|split]].
    + rewrite Hl. cbn [list_ascii_of_string]. by rewrite <- app_assoc.
    + apply Forall_app. split; [done|].
      constructor; [|constructor]. unfold is_digit. lia.
    + intros m. rewrite fold_left_app. cbn [fold_left].
      unfold digit_step at 1. rewrite Hval, Hb.
      rewrite length_app. cbn [length].
      rewrite Nat2Z.inj_add, Z.pow_add_r by lia.
      change (10 ^ Z.of_nat 1) with 10.
      pose proof (Z.div_mod u 10 ltac:(lia)). lia.
    + destruct l as [|c l']; [done|]. cbn [app].
      intros H0. destruct (Hhead H0) as [Hz _].
      assert (u < 10) by (apply Z.div_small_iff in Hz; lia). lia.
Qed.

(** [FormatInt] renders a natural number as its decimal digits, without
    leading zeros. *)
Lemma FormatInt_decimal (v : Z) : 0 <= v -> decimal_of (strconv.FormatInt v) v.
Proof.
  intros Hv. unfold strconv.FormatInt.
  destruct (Z.ltb_spec v 0); [lia|].
  assert (Hfuel : 0 <= v < 2 ^ Z.of_nat (S (Z.to_nat (Z.log2 v)))).
  { split; [done|]. rewrite Nat2Z.inj_succ, Z2Nat.id by apply Z.log2_nonneg.
    destruct (decide (v = 0)) as [->|]; [done|].
    apply Z.log2_spec. lia. }
  destruct (formatBits_digits _ v EmptyString (Nat.lt_0_succ _) Hfuel)
    as (l & Hl & Hdig & Hval & Hhead).
  cbn [list_ascii_of_string] in Hl. rewrite app_nil_r in Hl.
  set (s := strconv.formatBits _ v EmptyString) in *.
  unfold decimal_of, all_digits. rewrite digitsValue_fold, Hl.
  split; [split|split].
  - intros ->. by destruct l.
  - done.
  - rewrite Hval. lia.
  - intros r ->. cbn [list_ascii_of_string] in Hl.
    destruct l as [|c l']; [done|]. injection Hl as <- <-.
    destruct (Hhead eq_refl) as [_ Hr].
    by destruct r.
Qed.

End numeral_facts.

(** * Lines of the usual shape are read as intended *)

Section trim_facts.
Import strings.

Lemma TrimLeftSpace_graphic (c : ascii) (s : string) :
  graphic c -> TrimLeftSpace (String c s) = String c s.
Proof.
  intros [Hc Hs]. unfold TrimLeftSpace. cbn [String.length trimLeftFrom].
  by rewrite (decode_ascii c s Hc), Hs.
Qed.

Lemma TrimLeftSpace_space (s : string) :
  TrimLeftSpace (String " " s) = TrimLeftSpace s.
Proof. reflexivity. Qed.

Lemma get_app_last (s t : string) (c : ascii) :
  String.get (String.length s) (s +:+ String c t) = Some c.
Proof. induction s as [|a s IH]; [reflexivity|]. rewrite app_cons. exact IH. Qed.

Lemma byteAt_app_last (s t : string) (c : ascii) :
  utf8.byteAt (s +:+ String c t) (Z.of_nat (String.length s)) = byte c.
Proof. unfold utf8.byteAt. by rewrite Nat2Z.id, get_app_last. Qed.

Lemma length_snoc (s : string) (c : ascii) :
  String.length (s +:+ String c EmptyString) = S (String.length s).
Proof. rewrite length_app_s. simpl. lia. Qed.

Lemma DecodeLast_ascii (s : string) (c : ascii) :
  (byte c < 128)%Z ->
  utf8.DecodeLastRuneInString (s +:+ String c EmptyString) = (byte c, 1).
Proof.
  intros Hc. unfold utf8.DecodeLastRuneInString. rewrite length_snoc.
  destruct (Z.eqb_spec (Z.of_nat (S (String.length s))) 0); [lia|].
  replace (Z.of_nat (S (String.length s)) - 1)%Z
    with (Z.of_nat (String.length s)) by lia.
  rewrite byteAt_app_last. apply Z.ltb_lt in Hc. by rewrite Hc.
Qed.

Lemma TrimRightSpace_graphic (s : string) (c : ascii) :
  graphic c ->
  TrimRightSpace (s +:+ String c EmptyString) = s +:+ String c EmptyString.
Proof.
  intros [Hc Hs]. unfold TrimRightSpace. rewrite length_snoc.
  cbn [lastIndexNotSpace].
  rewrite <- (length_snoc s c), take_all, (DecodeLast_ascii s c Hc), Hs.
  rewrite length_snoc. cbn [Nat.sub]. rewrite Nat.sub_0_r, byteAt_app_last.
  destruct (Z.leb_spec 128 (byte c)); [lia|].
  replace (String.length s + 1) with (String.length (s +:+ String c EmptyString))
    by (rewrite length_snoc; lia).
  apply take_all.
Qed.

Lemma TrimRightSpace_space_graphic (s : string) (c : ascii) :
  graphic c ->
  TrimRightSpace ((s +:+ String c EmptyString) +:+ " ")
  = s +:+ String c EmptyString.
Proof.
  intros [Hc Hs]. unfold TrimRightSpace.
  set (t := s +:+ String c EmptyString).
  assert (Ht : String.length t = S (String.length s)) by apply length_snoc.
  rewrite (length_snoc t " "), Ht. cbn [lastIndexNotSpace].
  rewrite <- Ht, <- (length_snoc t " "), take_all.
  rewrite (DecodeLast_ascii t " ") by done.
  change (unicode.IsSpace (byte " ")) with true. cbn iota.
  rewrite (length_snoc t " "). cbn [Nat.sub]. rewrite Nat.sub_0_r.
  rewrite take_app. rewrite Ht. unfold t at 1.
  rewrite (DecodeLast_ascii s c Hc), Hs.
  cbn [Nat.sub]. rewrite Nat.sub_0_r.
  unfold t at 1. rewrite app_assoc_s.
  change (String c EmptyString +:+ " ") with (String c " ").
  rewrite byteAt_app_last.
  destruct (Z.leb_spec 128 (byte c)); [lia|].
  replace (String.length s + 1) with (String.length t) by lia.
  apply take_app.
Qed.

Lemma TrimSpace_graphic_ends (s : string) : graphic_ends s -> TrimSpace s = s.
Proof.
  intros (c0 & r0 & r1 & c1 & H0 & H1 & Hc0 & Hc1). unfold TrimSpace.
  rewrite H0 at 1. rewrite (TrimLeftSpace_graphic c0 r0 Hc0), <- H0.
  rewrite H1. by apply TrimRightSpace_graphic.
Qed.

Lemma TrimSpace_trailing_space (s : string) :
  graphic_ends s -> TrimSpace (s +:+ " ") = s.
Proof.
  intros (c0 & r0 & r1 & c1 & H0 & H1 & Hc0 & Hc1). unfold TrimSpace.
  rewrite H0 at 1. rewrite app_cons, (TrimLeftSpace_graphic c0 _ Hc0).
  rewrite <- app_cons, <- H0. rewrite H1.
  by apply TrimRightSpace_space_graphic.
Qed.

Lemma TrimSpace_leading_space (s : string) :
  TrimSpace (" " +:+ s) = TrimSpace s.
Proof. reflexivity. Qed.

End trim_facts.

Section shape_facts.
Import strings.

Lemma HasPrefix_cons_ne (c x : ascii) (s q : string) :
  c <> x -> HasPrefix (String c s) (String x q) = false.
Proof.
  intros H. cbn [HasPrefix]. apply Ascii.eqb_neq in H.
  by rewrite Ascii.eqb_sym, H.
Qed.

(** [Index] steps over a prefix that has no first byte of the
    separator. *)
Lemma Index_app_skip (a rest : string) (x : ascii) (q : string) :
  Forall (fun c => c <> x) (list_ascii_of_string a) ->
  Index (a +:+ rest) (String x q)
  = (fun i => String.length a + i) <$> Index rest (String x q).
Proof.
  induction a as [|c a IH]; intros Ha.
  - rewrite app_empty_l. by destruct (Index rest (String x q)).
  - cbn [list_ascii_of_string] in Ha. apply Forall_cons in Ha as [Hc Ha].
    rewrite app_cons. cbn [Index].
    rewrite (HasPrefix_cons_ne c x _ q Hc), (IH Ha).
    by destruct (Index rest (String x q)).
Qed.

Lemma Contains_false (s sep : string) :
  Contains s sep = false -> Index s sep = None.
Proof. unfold Contains. by destruct (Index s sep). Qed.

Lemma genSplit_none (n : nat) (s sep : string) :
  Index s sep = None -> genSplit n s sep = [s].
Proof. intros H. destruct n; [done|]. cbn [genSplit]. by rewrite H. Qed.

Lemma take_app_plus (a b : string) (k : nat) :
  take (String.length a + k) (a +:+ b) = a +:+ take k b.
Proof.
  induction a as [|c a IH]; [reflexivity|].
  rewrite !app_cons. cbn [String.length Nat.add take]. by rewrite IH.
Qed.

Lemma drop_app_plus (a b : string) (k : nat) :
  drop (String.length a + k) (a +:+ b) = drop k b.
Proof.
  induction a as [|c a IH]; [reflexivity|].
  rewrite app_cons. cbn [String.length Nat.add drop]. exact IH.
Qed.

Lemma HasSuffix_app (s suffix : string) : HasSuffix (s +:+ suffix) suffix = true.
Proof.
  unfold HasSuffix. rewrite length_app_s.
  replace (String.length s + String.length suffix - String.length suffix)
    with (String.length s) by lia.
  rewrite drop_app, String.eqb_refl.
  destruct (Nat.leb_spec (String.length suffix)
              (String.length s + String.length suffix)); [done|lia].
Qed.

Lemma TrimSuffix_app (s suffix : string) : TrimSuffix (s +:+ suffix) suffix = s.
Proof.
  unfold TrimSuffix. rewrite HasSuffix_app, length_app_s.
  replace (String.length s + String.length suffix - String.length suffix)
    with (String.length s) by lia.
  apply take_app.
Qed.

(** Names are made of graphic bytes, none of which is a colon, a slash
    or an equality sign. *)
Lemma name_char_graphic (c : ascii) : name_char c -> graphic c.
Proof.
  unfold name_char, graphic, unicode.IsSpace. intros H. split; [lia|].
  repeat match goal with
         | |- context [(?a <=? ?b)%Z] => destruct (Z.leb_spec a b); try lia
         | |- context [(?a =? ?b)%Z] => destruct (Z.eqb_spec a b); try lia
         end; reflexivity.
Qed.

Lemma name_char_ne (c x : ascii) :
  name_char c -> ~ name_char x -> c <> x.
Proof. intros Hc Hx ->. contradiction. Qed.

Lemma string_snoc (s : string) :
  s <> EmptyString -> exists r c, s = r +:+ String c EmptyString.
Proof.
  induction s as [|a s IH]; [done|]. intros _.
  destruct s as [|b s].
  - by exists EmptyString, a.
  - destruct IH as (r & c & Hr); [done|]. exists (String a r), c.
    by rewrite app_cons, <- Hr.
Qed.

Lemma matches_name_graphic_ends (N : string) :
  matches_name N -> graphic_ends N.
Proof.
  intros [Hne Hall]. destruct (string_snoc N Hne) as (r1 & c1 & H1).
  destruct N as [|c0 r0]; [done|]. exists c0, r0, r1, c1.
  split; [done|]. split; [done|]. split.
  - cbn [list_ascii_of_string] in Hall. apply Forall_cons in Hall as [H _].
    by apply name_char_graphic.
  - rewrite H1, list_ascii_app in Hall. apply Forall_app in Hall as [_ H].
    cbn [list_ascii_of_string] in H. apply Forall_cons in H as [H _].
    by apply name_char_graphic.
Qed.

Lemma matches_name_skip (N : string) (x : ascii) :
  matches_name N -> ~ name_char x ->
  Forall (fun c => c <> x) (list_ascii_of_string N).
Proof.
  intros [_ Hall] Hx. eapply Forall_impl; [exact Hall|].
  intros c Hc. by apply name_char_ne.
Qed.

Lemma not_name_char (x : ascii) :
  (byte x < 65)%Z -> ~ name_char x.
Proof. unfold name_char. lia. Qed.

(** A name, [ := ], a trimmed value text without [:=], and [;]: the
    line is read as the declaration of that name with that value. *)
Lemma declaration_intro (N V : string) :
  matches_name N -> Contains V ":=" = false -> TrimSpace V = V ->
  declaration (N +:+ " := " +:+ V +:+ ";") N V.
Proof.
  intros HN HV Htrim. exists (N +:+ " "), (" " +:+ V).
  assert (Hline : N +:+ " := " +:+ V +:+ ";" = (N +:+ " := " +:+ V) +:+ ";")
    by (by rewrite !app_assoc_s).
  rewrite Hline, TrimSuffix_app.
  split; [|split].
  - unfold Split.
    assert (Hi : Index (N +:+ " := " +:+ V) ":=" = Some (String.length N + 1)).
    { rewrite (Index_app_skip N _ ":" "=");
        [reflexivity|].
      apply matches_name_skip; [done|]. by apply not_name_char. }
    destruct (String.length (N +:+ " := " +:+ V)) as [|n] eqn:En.
    { apply Index_bound in Hi. simpl in Hi. lia. }
    cbn [genSplit]. rewrite Hi.
    rewrite take_app_plus.
    replace (String.length N + 1 + String.length ":=")
      with (String.length N + 3) by (simpl; lia).
    rewrite drop_app_plus. f_equal.
    apply genSplit_none.
    change (Index (" " +:+ V) ":=") with (S <$> Index V ":=").
    by rewrite (Contains_false V ":=" HV).
  - apply TrimSpace_trailing_space. by apply matches_name_graphic_ends.
  - by rewrite TrimSpace_leading_space.
Qed.

(** Such a line, alone on its input line, is handed to
    [handleConstant]. *)
Lemma dispatched_constant_intro (N V : string) :
  matches_name N ->
  dispatched_constant (N +:+ " := " +:+ V +:+ ";") (N +:+ " := " +:+ V +:+ ";").
Proof.
  intros HN. pose proof (matches_name_graphic_ends N HN)
    as (c0 & r0 & r1 & c1 & H0 & H1 & Hc0 & Hc1).
  assert (Hline : N +:+ " := " +:+ V +:+ ";" = (N +:+ " := " +:+ V) +:+ ";")
    by (by rewrite !app_assoc_s).
  assert (Hc0' : name_char c0).
  { destruct HN as [_ Hall]. rewrite H0 in Hall.
    cbn [list_ascii_of_string] in Hall. by apply Forall_cons in Hall as [H _]. }
  split; [|split; [|split; [|split]]].
  - apply TrimSpace_graphic_ends.
    exists c0, (r0 +:+ " := " +:+ V +:+ ";"), (N +:+ " := " +:+ V), ";"%char.
    split; [by rewrite H0 at 1|]. split; [exact Hline|]. split; [done|].
    by split.
  - by rewrite H0.
  - rewrite H0. apply HasPrefix_cons_ne. apply name_char_ne; [done|].
    by apply not_name_char.
  - unfold Contains.
    rewrite (Index_app_skip N _ ":" "="); [reflexivity|].
    apply matches_name_skip; [done|]. by apply not_name_char.
  - rewrite Hline. apply HasSuffix_app.
Qed.

(** [?(], tokens and [)]: the value text is read as the expression with
    those tokens. *)
Lemma expression_intro (E : string) :
  expression ("?(" +:+ E +:+ ")") (Fields E).
Proof.
  assert (Hv : "?(" +:+ E +:+ ")" = ("?(" +:+ E) +:+ ")")
    by (by rewrite app_assoc_s).
  split; [reflexivity|]. split.
  - rewrite Hv. apply HasSuffix_app.
  - change (TrimPrefix ("?(" +:+ E +:+ ")") "?(") with (E +:+ ")").
    by rewrite TrimSuffix_app.
Qed.

Lemma Index_assign_snoc (E : string) (c : ascii) :
  Index E ":=" = None -> c <> ":"%char -> c <> "="%char ->
  Index (E +:+ String c EmptyString) ":=" = None.
Proof.
  intros HE Hc1 Hc2. induction E as [|d E IH].
  - rewrite app_empty_l. cbn [Index].
    by rewrite (HasPrefix_cons_ne c ":" EmptyString "=" Hc1).
  - rewrite app_cons. cbn [Index] in *.
    destruct (HasPrefix (String d E) ":=") eqn:Hd; [discriminate|].
    destruct (Index E ":=") eqn:Hi; [discriminate|].
    rewrite (IH eq_refl).
    assert (Hd' : HasPrefix (String d (E +:+ String c EmptyString)) ":="
                  = false); [|by rewrite Hd'].
    change (Ascii.eqb ":" d && HasPrefix E "=" = false) in Hd.
    change (Ascii.eqb ":" d
            && HasPrefix (E +:+ String c EmptyString) "=" = false).
    destruct (Ascii.eqb ":" d); [|done]. cbn [andb] in *.
    destruct E as [|e E]; [|exact Hd].
    apply (HasPrefix_cons_ne c "=" EmptyString EmptyString Hc2).
Qed.

(** A declaration whose value is an expression, in the usual layout: it
    is handed to [handleConstant], read as the declaration of the name,
    and its value as the expression with the tokens between [?(] and
    [)]. *)
Lemma expression_line_read (N E : string) :
  matches_name N -> Contains E ":=" = false ->
  let V := "?(" +:+ E +:+ ")" in
  let line := N +:+ " := " +:+ V +:+ ";" in
  dispatched_constant line line /\ declaration line N V
  /\ expression V (Fields E).
Proof.
  intros HN HE V line.
  split; [by apply dispatched_constant_intro|]. split; [|apply expression_intro].
  assert (Hv : V = ("?(" +:+ E) +:+ ")") by (unfold V; by rewrite app_assoc_s).
  apply declaration_intro; [done|..].
  - unfold Contains.
    change (Index V ":=") with (S <$> (S <$> Index (E +:+ ")") ":=")).
    rewrite (Index_assign_snoc E ")" (Contains_false E ":=" HE)); done.
  - apply TrimSpace_graphic_ends.
    exists "?"%char, ("(" +:+ E +:+ ")"), ("?(" +:+ E), ")"%char.
    repeat split; done.
Qed.

(** A key without equality sign, [ = ] and a value token. *)
Lemma keyvalue_intro (K N : string) :
  graphic_ends K -> Contains K "=" = false ->
  keyvalue (K +:+ " = " +:+ N) K (TrimSpace N).
Proof.
  intros HK Hno. exists (K +:+ " "), (" " +:+ N). split; [|split].
  - unfold SplitN2. cbn [genSplit].
    assert (Hi : Index (K +:+ " = " +:+ N) "=" = Some (String.length K + 1)).
    { apply Contains_false in Hno. revert Hno. clear HK.
      induction K as [|c K IH]; [reflexivity|].
      rewrite app_cons. cbn [Index].
      change (HasPrefix (String c K) "=") with (Ascii.eqb "=" c && true).
      change (HasPrefix (String c (K +:+ " = " +:+ N)) "=")
        with (Ascii.eqb "=" c && true).
      destruct (Ascii.eqb "=" c && true); [discriminate|].
      destruct (Index K "=") as [i|] eqn:Ei; [discriminate|]. intros _.
      by rewrite (IH eq_refl). }
    rewrite Hi, take_app_plus.
    replace (String.length K + 1 + String.length "=")
      with (String.length K + 2) by (simpl; lia).
    by rewrite drop_app_plus.
  - by apply TrimSpace_trailing_space.
  - by rewrite TrimSpace_leading_space.
Qed.

End shape_facts.

(** * Numbers and operands *)

Section operand_facts.
Import strings.

Lemma isNumber_parseNumber (s : string) : isNumber s = isOk (parseNumber s).
Proof. unfold isNumber, parseNumber. by destruct (_ || _). Qed.

(** Whatever [strconv] rejects, it rejects with a [NumError]. *)
Lemma parseIntAs_error fn s base e :
  strconv.parseIntAs fn s base = Err e ->
  exists kind, e = NumError fn s kind.
Proof.
  unfold strconv.parseIntAs. destruct s as [|c s]; [intros [= <-]; eauto|].
  destruct (strconv.ParseUint _ _) as [un|[]]; try (intros [= <-]; eauto).
  repeat case_match; intros [= <-]; eauto.
Qed.

Lemma parseNumber_error s e :
  parseNumber s = Err e -> exists fn num kind, e = NumError fn num kind.
Proof.
  unfold parseNumber, strconv.ParseInt, strconv.Atoi.
  destruct (_ || _); intros [kind ->]%parseIntAs_error; eauto.
Qed.

Lemma not_number_error s :
  isNumber s = false -> exists fn num kind, parseNumber s = Err (NumError fn num kind).
Proof.
  rewrite isNumber_parseNumber. destruct (parseNumber s) as [v|e] eqn:E;
    [discriminate|].
  intros _. apply parseNumber_error in E as (fn & num & kind & ->). eauto.
Qed.

Lemma getNumberValue_unbound p token :
  variables p !! token = None -> getNumberValue p token = parseNumber token.
Proof. intros H. unfold getNumberValue. by rewrite H. Qed.

(** A text that opens an expression is no numeral, array or quoted
    string. *)
Lemma expr_prefix_not_number (v : string) :
  HasPrefix v "?(" = true -> isNumber v = false.
Proof.
  intros H. destruct v as [|c v]; [discriminate|].
  change (Ascii.eqb "?" c && HasPrefix v "(" = true) in H.
  apply andb_true_iff in H as [H _]. apply Ascii.eqb_eq in H as <-.
  reflexivity.
Qed.

(** [resolveValue] cannot fail: it parses a number only after [isNumber]
    accepted it. *)
Lemma resolveValue_ok p v : exists val, resolveValue p v = Ok val.
Proof.
  unfold resolveValue. destruct (variables p !! v); [eauto|].
  rewrite isNumber_parseNumber.
  destruct (parseNumber v) as [z|e]; simpl; [eauto|].
  destruct (_ && _); eauto.
Qed.

Lemma resolveElements_ok p values :
  exists array, resolveElements p values = Ok array.
Proof.
  induction values as [|v values [array IH]]; simpl; [eauto|].
  destruct (isEmpty _); [eauto|].
  destruct (resolveValue_ok p (TrimSpace v)) as [val ->]. simpl.
  rewrite IH. simpl. eauto.
Qed.

End operand_facts.

(** * Expressions in declarations *)

Section expression_facts.
Import strings.

Lemma handleConstant_expression p line N V tokens :
  declaration line N V -> expression V tokens -> isValidName N = true ->
  handleConstant p line =
    match evaluateExpression p (TrimSuffix (TrimPrefix V "?(") ")") with
    | Err err => (p, Some err)
    | Ok value => (setVariable p N (VInt value), None)
    end.
Proof.
  intros (part0 & part1 & Hsplit & Hname & Hvalue) (Hpre & Hsuf & _) Hvalid.
  unfold handleConstant.
  by rewrite Hsplit, Hname, Hvalue, Hvalid, Hpre, Hsuf.
Qed.

Lemma evaluate_add p expr t1 t2 :
  Fields expr = ["+"; t1; t2] ->
  evaluateExpression p expr =
    (a ← getNumberValue p t1; b ← getNumberValue p t2;
     Ok (strconv.wrap64 (a + b))).
Proof. intros H. unfold evaluateExpression. by rewrite H. Qed.

Lemma evaluate_sub p expr t1 t2 :
  Fields expr = ["-"; t1; t2] ->
  evaluateExpression p expr =
    (a ← getNumberValue p t1; b ← getNumberValue p t2;
     Ok (strconv.wrap64 (a - b))).
Proof. intros H. unfold evaluateExpression. by rewrite H. Qed.

Lemma evaluate_abs p expr t1 :
  Fields expr = ["abs"; t1] ->
  evaluateExpression p expr =
    (val ← getNumberValue p t1;
     if (val <? 0)%Z then Ok (strconv.wrap64 (- val)) else Ok val).
Proof. intros H. unfold evaluateExpression. by rewrite H. Qed.

Lemma evaluate_ord p expr t1 :
  Fields expr = ["ord"; t1] ->
  evaluateExpression p expr =
    (str ← getStringValue p t1;
     if String.length str =? 0 then Err ErrOrdEmpty
     else match ordText str with
          | EmptyString => Err ErrOrdEmpty
          | String c _ => Ok (byte c)
          end).
Proof. intros H. unfold evaluateExpression. by rewrite H. Qed.

Lemma getNumberValue_other p name v token :
  token <> name ->
  getNumberValue (setVariable p name v) token = getNumberValue p token.
Proof.
  intros H. unfold getNumberValue. simpl. by rewrite lookup_insert_ne.
Qed.

Lemma getStringValue_other p name v token :
  token <> name ->
  getStringValue (setVariable p name v) token = getStringValue p token.
Proof.
  intros H. unfold getStringValue. simpl. by rewrite lookup_insert_ne.
Qed.

Lemma resolveValue_other p name v token :
  token <> name ->
  resolveValue (setVariable p name v) token = resolveValue p token.
Proof.
  intros H. unfold resolveValue. simpl. by rewrite lookup_insert_ne.
Qed.

(** After [p.variables[name] = v] the name is bound to [v]. *)
Lemma setVariable_lookup p name v :
  variables (setVariable p name v) !! name = Some v.
Proof. unfold setVariable. cbn [variables]. apply lookup_insert_eq. Qed.

Lemma wrap64_add_sub (a b : Z) :
  (strconv.minInt64 <= a <= strconv.maxInt64)%Z ->
  strconv.wrap64 (strconv.wrap64 (a + b) - b) = a.
Proof.
  unfold strconv.wrap64, strconv.minInt64, strconv.maxInt64.
  change (2 ^ 63)%Z with 9223372036854775808%Z.
  change (2 ^ 64)%Z with 18446744073709551616%Z.
  intros H. Z.div_mod_to_equations. lia.
Qed.

End expression_facts.

(** * The loop over the lines *)

Section loop_facts.

Lemma processLines_app st lines st' lines' :
  processLines st lines = (st', None) ->
  processLines st (lines ++ lines') = processLines st' lines'.
Proof.
  revert st. induction lines as [|l lines IH]; intros st H; simpl in *.
  - by inversion H.
  - destruct (processLine st l) as [st1 [e|]]; [discriminate|]. by apply IH.
Qed.

Lemma processLines_abort st line lines st' err :
  processLine st line = (st', Some err) ->
  processLines st (line :: lines) = (st', Some err).
Proof. intros H. simpl. by rewrite H. Qed.

Lemma processLines_continue st line lines st' :
  processLine st line = (st', None) ->
  processLines st (line :: lines) = processLines st' lines.
Proof. intros H. simpl. by rewrite H. Qed.

(** A line handed to [handleConstant]: the step is that call. *)
Lemma processLine_constant p output raw line :
  dispatched_constant raw line ->
  processLine (p, output) raw =
    ((fst (handleConstant p line), output), snd (handleConstant p line)).
Proof.
  intros (Ht & He & Hc & Hd & Hs). unfold processLine.
  rewrite Ht, He, Hc, Hd, Hs. simpl. by destruct (handleConstant p line).
Qed.

End loop_facts.

(** * C1: a failed conversion writes nothing *)

(** C1.  When the conversion of the text read from [inputPath] meets an
    error at some line (the lines before it having been processed without
    error), [Parse] returns that very error and the file system is the one
    it started from: nothing was written to [outputPath]. *)
Theorem Parse_error_writes_nothing {FS : Type} `{!FileSystem FS}
    (p : Parser) (fs : FS) (inputPath outputPath content : string)
    (before after : list string) (line : string)
    (st st' : Parser * string) (err : error) :
  ReadFile fs inputPath = Ok content ->
  strings.Split (removeMultilineComments content) nl
    = before ++ line :: after ->
  processLines (p, EmptyString) before = (st, None) ->
  processLine st line = (st', Some err) ->
  Parse p fs inputPath outputPath = ((fst st', fs), Some err).
Proof.
  intros Hread Hsplit Hbefore Hline. unfold Parse, convert.
  rewrite Hread, Hsplit, (processLines_app _ _ _ _ Hbefore).
  rewrite (processLines_abort _ _ _ _ _ Hline). by destruct st'.
Qed.

Lemma Parse_error_writes_nothing_witness :
  let fs : gmap string string := {[ "in.conf" := "invalid_name := 42;" ]} in
  Parse NewParser fs "in.conf" "out.toml"
    = ((NewParser, fs), Some (ErrInvalidName "invalid_name")).
Proof.
  intros fs.
  apply (Parse_error_writes_nothing NewParser fs "in.conf" "out.toml"
           "invalid_name := 42;" [] [] "invalid_name := 42;"
           (NewParser, EmptyString) (NewParser, EmptyString)
           (ErrInvalidName "invalid_name")); reflexivity.
Defined.

(** * C2: a block comment, a declaration, a section and a key *)

Section comment_input.
Import strings.

Lemma Contains_cons_false c s sub :
  Contains (String c s) sub = false ->
  HasPrefix (String c s) sub = false /\ Contains s sub = false.
Proof.
  unfold Contains. cbn [Index].
  destruct (HasPrefix (String c s) sub); [discriminate|].
  by destruct (Index s sub).
Qed.

(** The first [-}] of a text that has none before the one written. *)
Lemma Index_close body rest :
  Contains (body +:+ "-") "-}" = false ->
  Index (body +:+ "-}" +:+ rest) "-}" = Some (String.length body).
Proof.
  induction body as [|c body IH]; intros H; [reflexivity|].
  change (Contains (String c (body +:+ "-")) "-}" = false) in H.
  change (String c body +:+ "-}" +:+ rest)
    with (String c (body +:+ "-}" +:+ rest)).
  apply Contains_cons_false in H as [Hp Hc].
  cbn [Index String.length].
  assert (Hp' : HasPrefix (String c (body +:+ "-}" +:+ rest)) "-}" = false).
  { destruct body as [|d body]; [|exact Hp].
    change (Ascii.eqb "-" c && (Ascii.eqb "}" "-" && true) = false) in Hp.
    change (Ascii.eqb "-" c && (Ascii.eqb "}" "-" && true) = false).
    exact Hp. }
  rewrite Hp', (IH Hc). reflexivity.
Qed.

Lemma replaceAllComments_none fuel s :
  Index s "{-" = None -> regexp.replaceAllComments fuel s = s.
Proof. intros H. destruct fuel; [reflexivity|]. simpl. by rewrite H. Qed.

Lemma replaceAllComments_step fuel s i j :
  Index s "{-" = Some i -> Index (drop (i + 2) s) "-}" = Some j ->
  regexp.replaceAllComments (S fuel) s
  = take i s +:+ regexp.replaceAllComments fuel (drop (j + 2) (drop (i + 2) s)).
Proof. intros Hi Hj. cbn [regexp.replaceAllComments]. by rewrite Hi, Hj. Qed.

Lemma removeMultilineComments_input body :
  Contains (body +:+ "-") "-}" = false ->
  removeMultilineComments (commentedInput body) = nl +:+ afterComment.
Proof.
  intros Hbody. unfold removeMultilineComments, commentedInput.
  change (nl +:+ "{-" +:+ body +:+ "-}" +:+ afterComment)
    with (String newline (String "{" (String "-"
            (body +:+ "-}" +:+ afterComment)))).
  cbn [String.length].
  rewrite (replaceAllComments_step _ _ 1 (String.length body)).
  - cbn [Nat.add drop take].
    replace (String.length body + 2) with (String.length (body +:+ "-}"))
      by (rewrite length_app_s; reflexivity).
    rewrite <- app_assoc_s, drop_app.
    by rewrite replaceAllComments_none by reflexivity.
  - reflexivity.
  - cbn [Nat.add drop]. by apply Index_close.
Qed.

(** C2.  For an input made of a block comment, whatever its body (the
    comment ending at the [-}] written after it), then the declaration
    of [VALUE] as 42, the section line and the key-value line, [Parse]
    writes exactly the section line and the line [key = 42] to the
    output file, and returns what the write returns. *)
Theorem comment_declaration_section_key {FS : Type} `{!FileSystem FS}
    (fs : FS) (inputPath outputPath body : string) :
  Contains (body +:+ "-") "-}" = false ->
  ReadFile fs inputPath = Ok (commentedInput body) ->
  removeMultilineComments (commentedInput body) = nl +:+ afterComment
  /\ convert NewParser (commentedInput body)
     = ((setVariable NewParser "VALUE" (VInt 42),
         "[section]" +:+ nl +:+ "key = 42" +:+ nl), None)
  /\ Parse NewParser fs inputPath outputPath
     = (let '(fs', err) :=
          WriteFile fs outputPath ("[section]" +:+ nl +:+ "key = 42" +:+ nl) in
        ((setVariable NewParser "VALUE" (VInt 42), fs'), err)).
Proof.
  intros Hbody Hread.
  pose proof (removeMultilineComments_input body Hbody) as Hremove.
  assert (Hconvert : convert NewParser (commentedInput body)
            = ((setVariable NewParser "VALUE" (VInt 42),
                "[section]" +:+ nl +:+ "key = 42" +:+ nl), None)).
  { unfold convert. rewrite Hremove. by vm_compute. }
  split; [exact Hremove|]. split; [exact Hconvert|].
  unfold Parse. by rewrite Hread, Hconvert.
Qed.

Lemma comment_declaration_section_key_witness :
  let body := nl +:+ " Этот комментарий" +:+ nl +:+ " должен быть полностью"
              +:+ nl +:+ " проигнорирован" +:+ nl in
  let fs : gmap string string := {[ "test_comments.conf" := commentedInput body ]} in
  Parse NewParser fs "test_comments.conf" "test_comments.toml"
  = ((setVariable NewParser "VALUE" (VInt 42),
      <["test_comments.toml" := "[section]" +:+ nl +:+ "key = 42" +:+ nl]> fs),
     None).
Proof.
  intros body fs.
  refine (proj2 (proj2 (comment_declaration_section_key fs "test_comments.conf"
            "test_comments.toml" body _ _))).
  - by vm_compute.
  - reflexivity.
Defined.

End comment_input.

(** * C3: [ord] of a non-empty text *)

(** C3, as stated.  [ord] takes the first byte, not the first code
    point: the operand [é] resolves to the two-byte text [é], whose
    first character has code point 233, and [N] is bound to 195.  And
    one pair of enclosing double quotes is removed first: for the operand
    of the program's own test, the quoted [Z], the resolved text starts
    with the double quote, code point 34, and the result is 90. *)
Lemma ord_is_not_first_code_point :
  (getStringValue NewParser "é" = Ok "é"
   /\ firstCodePoint "é" = 233%Z
   /\ handleConstant NewParser "N := ?(ord é);"
      = (setVariable NewParser "N" (VInt 195), None)
   /\ variables (fst (handleConstant NewParser "N := ?(ord é);")) !! "N"
      = Some (VInt 195))
  /\ (let S := quote +:+ "Z" +:+ quote in
      getStringValue NewParser S = Ok S
      /\ firstCodePoint S = 34%Z
      /\ handleConstant NewParser ("CHAR_CODE := ?(ord " +:+ S +:+ ");")
         = (setVariable NewParser "CHAR_CODE" (VInt 90), None)
      /\ variables (fst (handleConstant NewParser
                           ("CHAR_CODE := ?(ord " +:+ S +:+ ");")))
           !! "CHAR_CODE"
         = Some (VInt 90)).
Proof. repeat split. Qed.

(** C3, as the program has it.  In a declaration of [N] whose value is
    the expression [ord S], when [S] resolves to a text that, one pair of
    enclosing double quotes removed, starts with an ASCII character, [N]
    is bound to the code point of that character. *)
Theorem ord_ascii_code_point
    (p : Parser) (line N V S text : string) (c : ascii) (rest : string) :
  declaration line N V ->
  expression V ["ord"; S] ->
  isValidName N = true ->
  getStringValue p S = Ok text ->
  ordText text = String c rest ->
  (byte c < 128)%Z ->
  handleConstant p line
    = (setVariable p N (VInt (firstCodePoint (ordText text))), None)
  /\ variables (fst (handleConstant p line)) !! N
     = Some (VInt (firstCodePoint (ordText text))).
Proof.
  intros Hd He Hvalid Htext Hord Hascii.
  assert (Hc : handleConstant p line
               = (setVariable p N (VInt (firstCodePoint (ordText text))),
                  None)).
  { rewrite (handleConstant_expression p line N V _ Hd He Hvalid).
    destruct He as (_ & _ & Hf).
    rewrite (evaluate_ord _ _ _ Hf), Htext. simpl. rewrite Hord.
    destruct text; [discriminate|]. simpl.
    unfold firstCodePoint, utf8.DecodeRuneInString.
    apply Z.ltb_lt in Hascii. by rewrite Hascii. }
  split; [exact Hc|]. rewrite Hc. apply setVariable_lookup.
Qed.

Lemma ord_ascii_code_point_witness :
  handleConstant NewParser "CHAR_CODE := ?(ord Z);"
    = (setVariable NewParser "CHAR_CODE" (VInt (firstCodePoint "Z")), None)
  /\ variables (fst (handleConstant NewParser "CHAR_CODE := ?(ord Z);"))
       !! "CHAR_CODE"
     = Some (VInt 90).
Proof.
  apply (ord_ascii_code_point NewParser "CHAR_CODE := ?(ord Z);"
           "CHAR_CODE" "?(ord Z)" "Z" "Z" "Z"%char EmptyString).
  - exists "CHAR_CODE ", " ?(ord Z)". repeat split; reflexivity.
  - repeat split; reflexivity.
  - reflexivity.
  - reflexivity.
  - reflexivity.
  - reflexivity.
Defined.

(** * C4: operands that name no symbol *)

(** C4, the failing half.  The operand of [ord] that names no symbol is
    used as text: [UNDEFINED] is bound nowhere and [ord UNDEFINED] is the
    byte [U]. *)
Lemma undefined_ord_operand_is_text :
  variables NewParser !! "UNDEFINED" = None
  /\ getStringValue NewParser "UNDEFINED" = Ok "UNDEFINED"
  /\ evaluateExpression NewParser "ord UNDEFINED" = Ok 85%Z.
Proof. repeat split. Qed.

(** C4, as the program has it.  For a token that names no symbol: where
    a number is wanted and the token is no numeral, the operand fails
    with a number-parsing error, and so does every [+], [-] or [abs]
    expression that has it as an operand; where a text is wanted the
    token itself is the text, without its quoted-string markers if it has
    them, and [ord] of it is the first byte of that text. *)
Theorem undefined_operand (p : Parser) (token : string) :
  variables p !! token = None ->
  (isNumber token = false ->
     (exists fn num kind,
         getNumberValue p token = Err (NumError fn num kind))
     /\ forall expr op other,
          (op = "+" \/ op = "-") ->
          (strings.Fields expr = [op; token; other]
           \/ strings.Fields expr = [op; other; token]
           \/ strings.Fields expr = ["abs"; token]) ->
          exists err, evaluateExpression p expr = Err err)
  /\ getStringValue p token
     = Ok (if strings.HasPrefix token at_quote && strings.HasSuffix token quote
           then strings.TrimSuffix (strings.TrimPrefix token at_quote) quote
           else token)
  /\ forall expr text c rest,
       strings.Fields expr = ["ord"; token] ->
       getStringValue p token = Ok text ->
       ordText text = String c rest ->
       evaluateExpression p expr = Ok (byte c).
Proof.
  intros Hnone. split; [|split].
  - intros Hnum.
    destruct (not_number_error token Hnum) as (fn & num & kind & Hparse).
    assert (Hget : getNumberValue p token = Err (NumError fn num kind))
      by (by rewrite getNumberValue_unbound).
    split; [eauto|].
    intros expr op other Hop [Hf|[Hf|Hf]].
    + destruct Hop as [-> | ->];
        [rewrite (evaluate_add _ _ _ _ Hf)|rewrite (evaluate_sub _ _ _ _ Hf)];
        rewrite Hget; simpl; eauto.
    + destruct Hop as [-> | ->];
        [rewrite (evaluate_add _ _ _ _ Hf)|rewrite (evaluate_sub _ _ _ _ Hf)];
        (destruct (getNumberValue p other); simpl; [rewrite Hget|]; simpl; eauto).
    + rewrite (evaluate_abs _ _ _ Hf), Hget. simpl. eauto.
  - unfold getStringValue. rewrite Hnone. by destruct (_ && _).
  - intros expr text c rest Hf Htext Hord.
    rewrite (evaluate_ord _ _ _ Hf), Htext. simpl. rewrite Hord.
    destruct text; [discriminate|]. reflexivity.
Qed.

Lemma undefined_operand_witness :
  (exists fn num kind,
      getNumberValue NewParser "UNDEFINED" = Err (NumError fn num kind))
  /\ getStringValue NewParser "UNDEFINED" = Ok "UNDEFINED".
Proof.
  destruct (undefined_operand NewParser "UNDEFINED") as (Hnum & Hstr & _).
  - reflexivity.
  - split; [apply Hnum; reflexivity|exact Hstr].
Defined.

(** * C5: addition and subtraction undo each other *)

(** C5, as stated.  An operand cannot be an expression: the nested form
    is split into five tokens and rejected, for the constants 1 and 2. *)
Lemma nested_expression_rejected :
  strings.Fields "- (?(+ 1 2)) 2" = ["-"; "(?(+"; "1"; "2))"; "2"]
  /\ evaluateExpression NewParser "- (?(+ 1 2)) 2" = Err ErrInvalidExpression
  /\ handleConstant NewParser "X := ?(- (?(+ 1 2)) 2);"
     = (NewParser, Some ErrInvalidExpression).
Proof. repeat split. Qed.

(** C5, through a named constant.  When the operands [ta] and [tb]
    denote the integers [a] and [b], [a] being a 64-bit value, declaring
    [S] as [?(+ ta tb)] and then [D] as [?(- S tb)] succeeds twice and
    binds [D] to [a]: the sum wraps around modulo [2^64] and the
    difference wraps back. *)
Theorem add_then_sub_is_identity
    (p : Parser) (line1 line2 S D V1 V2 ta tb : string) (a b : Z) :
  declaration line1 S V1 -> expression V1 ["+"; ta; tb] ->
  declaration line2 D V2 -> expression V2 ["-"; S; tb] ->
  isValidName S = true -> isValidName D = true ->
  getNumberValue p ta = Ok a -> getNumberValue p tb = Ok b ->
  tb <> S ->
  (strconv.minInt64 <= a <= strconv.maxInt64)%Z ->
  let p1 := setVariable p S (VInt (strconv.wrap64 (a + b))) in
  let p2 := setVariable p1 D (VInt a) in
  handleConstant p line1 = (p1, None)
  /\ handleConstant p1 line2 = (p2, None)
  /\ variables p2 !! D = Some (VInt a).
Proof.
  intros Hd1 He1 Hd2 He2 HS HD Ha Hb Hne Hrange p1 p2.
  split; [|split].
  - rewrite (handleConstant_expression p line1 S V1 _ Hd1 He1 HS).
    destruct He1 as (_ & _ & Hf).
    rewrite (evaluate_add _ _ _ _ Hf), Ha, Hb. reflexivity.
  - rewrite (handleConstant_expression p1 line2 D V2 _ Hd2 He2 HD).
    destruct He2 as (_ & _ & Hf).
    rewrite (evaluate_sub _ _ _ _ Hf).
    assert (HgS : getNumberValue p1 S = Ok (strconv.wrap64 (a + b))).
    { unfold getNumberValue, p1. simpl. by rewrite lookup_insert_eq. }
    rewrite HgS. unfold p1 at 1. rewrite (getNumberValue_other _ _ _ _ Hne), Hb.
    simpl. by rewrite (wrap64_add_sub a b Hrange).
  - unfold p2. simpl. apply lookup_insert_eq.
Qed.

Lemma add_then_sub_is_identity_witness :
  let p1 := setVariable NewParser "SUM" (VInt 12) in
  handleConstant NewParser "SUM := ?(+ 7 5);" = (p1, None)
  /\ handleConstant p1 "DIFF := ?(- SUM 5);"
     = (setVariable p1 "DIFF" (VInt 7), None)
  /\ variables (setVariable p1 "DIFF" (VInt 7)) !! "DIFF" = Some (VInt 7).
Proof.
  apply (add_then_sub_is_identity NewParser
           "SUM := ?(+ 7 5);" "DIFF := ?(- SUM 5);" "SUM" "DIFF"
           "?(+ 7 5)" "?(- SUM 5)" "7" "5" 7 5).
  - exists "SUM ", " ?(+ 7 5)". repeat split; reflexivity.
  - repeat split; reflexivity.
  - exists "DIFF ", " ?(- SUM 5)". repeat split; reflexivity.
  - repeat split; reflexivity.
  - reflexivity.
  - reflexivity.
  - reflexivity.
  - reflexivity.
  - discriminate.
  - unfold strconv.minInt64, strconv.maxInt64. lia.
Defined.

(** * C6: octal constants *)

Section octal_constants.
Import strings.

Lemma digitsValue_nonneg base digits :
  (1 <= base)%Z -> all_digits base digits -> (0 <= digitsValue base digits)%Z.
Proof.
  intros Hb [_ Hd]. rewrite digitsValue_fold.
  by apply fold_digits_lower.
Qed.

Lemma parseNumber_octal digits :
  all_digits 8 digits ->
  (digitsValue 8 digits <= strconv.maxInt64)%Z ->
  parseNumber ("0o" +:+ digits) = Ok (digitsValue 8 digits).
Proof.
  intros Hd Hmax.
  change ("0o" +:+ digits) with (String "0" (String "o" digits)).
  unfold parseNumber.
  change (HasPrefix (String "0" (String "o" digits)) "0o") with true.
  cbn [orb drop]. by apply ParseInt_octal.
Qed.

Lemma handleKeyValue_constant p line key name value output :
  keyvalue line key name -> variables p !! name = Some value ->
  handleKeyValue p line output
  = (output +:+ key +:+ " = " +:+ formatValue value +:+ nl, None).
Proof.
  intros (part0 & part1 & Hsplit & Hkey & Hname) Hlookup.
  unfold handleKeyValue. rewrite Hsplit, Hkey, Hname.
  unfold resolveValue. by rewrite Hlookup.
Qed.

(** C6, as stated.  The 22-digit octal literal that denotes [2^63] is
    not bound as an integer: it is no numeral for the program, the
    constant holds the text of the literal and the key-value line emits
    that text in double quotes, not the decimal digits of [2^63]. *)
Lemma octal_overflow_emitted_as_text :
  let digits := "1000000000000000000000" in
  let p := fst (handleConstant NewParser ("X := 0o" +:+ digits +:+ ";")) in
  all_digits 8 digits
  /\ digitsValue 8 digits = (2 ^ 63)%Z
  /\ variables p !! "X" = Some (VString ("0o" +:+ digits))
  /\ handleKeyValue p "key = X" EmptyString
     = ("key = " +:+ quote +:+ "0o" +:+ digits +:+ quote +:+ nl, None).
Proof.
  repeat split; try reflexivity; try discriminate.
  cbn [list_ascii_of_string].
  repeat (constructor; [unfold is_digit; by vm_compute|]). constructor.
Qed.

(** C6, as the program has it.  For octal digits whose base-8 value [v]
    is at most [2^63 - 1]: the declaration of [N] as [0o<digits>] binds
    [N] to the integer [v], and a key-value line whose value is [N] adds
    to the output the key, [ = ], the decimal digits of [v] without
    leading zeros, and a newline. *)
Theorem octal_constant_emitted
    (p : Parser) (line N digits kv key output : string) :
  declaration line N ("0o" +:+ digits) ->
  isValidName N = true ->
  all_digits 8 digits ->
  (digitsValue 8 digits <= strconv.maxInt64)%Z ->
  keyvalue kv key N ->
  let v := digitsValue 8 digits in
  let p' := setVariable p N (VInt v) in
  handleConstant p line = (p', None)
  /\ handleKeyValue p' kv output
     = (output +:+ key +:+ " = " +:+ strconv.FormatInt v +:+ nl, None)
  /\ decimal_of (strconv.FormatInt v) v.
Proof.
  intros (part0 & part1 & Hsplit & Hname & Hvalue) Hvalid Hd Hmax Hkv v p'.
  pose proof (parseNumber_octal digits Hd Hmax) as Hparse.
  split; [|split].
  - unfold handleConstant. rewrite Hsplit, Hname, Hvalue, Hvalid.
    rewrite isNumber_parseNumber, Hparse.
    change ("0o" +:+ digits) with (String "0" (String "o" digits)).
    reflexivity.
  - apply (handleKeyValue_constant p' kv key N (VInt v) output Hkv).
    unfold p'. simpl. apply lookup_insert_eq.
  - apply FormatInt_decimal. by apply digitsValue_nonneg.
Qed.

Lemma octal_constant_emitted_witness :
  let p' := setVariable NewParser "OCTAL" (VInt 493) in
  handleConstant NewParser "OCTAL := 0o755;" = (p', None)
  /\ handleKeyValue p' "mode = OCTAL" EmptyString
     = ("mode = 493" +:+ nl, None)
  /\ decimal_of "493" 493.
Proof.
  apply (octal_constant_emitted NewParser "OCTAL := 0o755;" "OCTAL" "755"
           "mode = OCTAL" "mode" EmptyString).
  - exists "OCTAL ", " 0o755". repeat split; reflexivity.
  - reflexivity.
  - split; [discriminate|].
    cbn [list_ascii_of_string].
    repeat (constructor; [unfold is_digit; by vm_compute|]). constructor.
  - by vm_compute.
  - exists "mode ", " OCTAL". repeat split; reflexivity.
Defined.

End octal_constants.

(** * C7: the names of constants *)

Section name_facts.

Lemma name_rune_char (c : ascii) : name_rune (byte c) = true <-> name_char c.
Proof.
  unfold name_rune, rejectedRune, name_char.
  destruct (Z.leb_spec 65 (byte c)), (Z.leb_spec (byte c) 90),
    (Z.eqb_spec (byte c) 95); simpl; split; intros; try discriminate;
    try lia; auto.
Qed.

(** The loop over the runes of [isValidName] accepts exactly the strings
    whose bytes are all upper-case ASCII letters or underscores: a byte
    of 128 or more never decodes to such a rune. *)
Lemma runes_name (fuel : nat) (s : string) :
  String.length s <= fuel ->
  forallb name_rune (utf8.runesFrom fuel s) = true
  <-> Forall name_char (list_ascii_of_string s).
Proof.
  revert s. induction fuel as [|fuel IH]; intros s Hlen.
  - destruct s; [|simpl in Hlen; lia]. simpl. split; auto.
  - destruct s as [|c s]; [simpl; split; auto|].
    simpl in Hlen. cbn [utf8.runesFrom list_ascii_of_string].
    destruct (decide (byte c < 128)%Z) as [Hlt|Hge].
    + assert (Hd : utf8.DecodeRuneInString (String c s) = (byte c, 1)).
      { unfold utf8.DecodeRuneInString. apply Z.ltb_lt in Hlt. by rewrite Hlt. }
      rewrite Hd. cbn [forallb drop]. rewrite andb_true_iff, Forall_cons.
      rewrite name_rune_char, IH by lia. reflexivity.
    + pose proof (decode_non_ascii c s ltac:(lia)) as Hr.
      destruct (utf8.DecodeRuneInString (String c s)) as [r w].
      simpl in Hr. cbn [forallb].
      assert (Hbad : name_rune r = false).
      { unfold name_rune, rejectedRune.
        destruct (Z.leb_spec r 90); [lia|].
        destruct (Z.eqb_spec r 95); [lia|].
        by rewrite andb_false_r. }
      rewrite Hbad. simpl. split; [discriminate|].
      intros [Hc _]%Forall_cons. unfold name_char in Hc. lia.
Qed.

Lemma isValidName_matches (s : string) :
  isValidName s = true <-> matches_name s.
Proof.
  unfold isValidName, matches_name. destruct s as [|c s].
  - simpl. split; [discriminate|]. by intros [? _].
  - cbn [isEmpty]. change (fun r => negb (rejectedRune r)) with name_rune.
    unfold utf8.runes.
    rewrite runes_name by lia. split; [by intros H|by intros [_ H]].
Qed.

(** No operation on operands or values ever reports an invalid name. *)
Lemma evaluateExpression_no_name_error p expr e :
  evaluateExpression p expr = Err e -> ~ name_error e.
Proof.
  assert (Hnum : forall t e, getNumberValue p t = Err e -> ~ name_error e).
  { intros t e'. unfold getNumberValue.
    repeat case_match; try (intros [= <-]; simpl; tauto); try discriminate.
    intros (fn & num & kind & ->)%parseNumber_error. simpl; tauto. }
  assert (Hstr : forall t e, getStringValue p t = Err e -> ~ name_error e).
  { intros t e'. unfold getStringValue.
    repeat case_match; try (intros [= <-]; simpl; tauto); discriminate. }
  unfold evaluateExpression.
  destruct (strings.Fields expr) as [|op [|t1 [|t2 [|t3 args]]]];
    cbn [length Nat.ltb Nat.leb];
    try (intros [= <-]; simpl; tauto);
    repeat match goal with
           | |- context [String.eqb op ?s] => destruct (String.eqb op s)
           end;
    try (intros [= <-]; simpl; tauto).
  all: repeat match goal with
       | |- context [getNumberValue ?q ?t] =>
         let E := fresh "E" in
         destruct (getNumberValue q t) eqn:E; cbn [mbind result_bind];
         [|intros [= <-]; by eapply Hnum]
       | |- context [getStringValue ?q ?t] =>
         let E := fresh "E" in
         destruct (getStringValue q t) eqn:E; cbn [mbind result_bind];
         [|intros [= <-]; by eapply Hstr]
       end.
  all: try discriminate.
  - match goal with
    | |- context [String.length ?s =? 0] =>
      destruct (String.length s =? 0); [intros [= <-]; simpl; tauto|];
      destruct (strings.HasPrefix s quote && strings.HasSuffix s quote);
      [destruct (strings.TrimSuffix (strings.TrimPrefix s quote) quote)
      |destruct s]
    end; try discriminate; intros [= <-]; simpl; tauto.
  - match goal with
    | |- context [(?v <? 0)%Z] => destruct (v <? 0)%Z
    end; discriminate.
Qed.

End name_facts.

Section name_check.
Import strings.

Lemma handleConstant_invalid_name p line name V :
  declaration line name V -> isValidName name = false ->
  handleConstant p line = (p, Some (ErrInvalidName name)).
Proof.
  intros (part0 & part1 & Hsplit & Hname & Hvalue) Hinvalid.
  unfold handleConstant. by rewrite Hsplit, Hname, Hinvalid.
Qed.

Lemma handleConstant_valid_name p line name V e :
  declaration line name V -> isValidName name = true ->
  snd (handleConstant p line) = Some e -> ~ name_error e.
Proof.
  intros (part0 & part1 & Hsplit & Hname & Hvalue) Hvalid.
  unfold handleConstant. rewrite Hsplit, Hname, Hvalue, Hvalid.
  cbn [negb].
  destruct (HasPrefix V "?(" && HasSuffix V ")").
  { destruct (evaluateExpression p _) eqn:E; simpl; [discriminate|].
    intros [= <-]. by eapply evaluateExpression_no_name_error. }
  destruct (HasPrefix V "[" && HasSuffix V "]").
  { destruct (resolveElements_ok p
                (Split (TrimSuffix (TrimPrefix V "[") "]") ",")) as [a ->].
    discriminate. }
  destruct (HasPrefix V at_quote && HasSuffix V quote); [discriminate|].
  destruct (isNumber V).
  { destruct (parseNumber V) eqn:E; simpl; [discriminate|].
    intros [= <-]. apply parseNumber_error in E as (fn & num & kind & ->).
    simpl; tauto. }
  destruct (variables p !! V); discriminate.
Qed.

(** C7.  For a line that [Parse] hands to [handleConstant] and that is
    read as the declaration of [name]: the declaration fails with a
    name-validation error if and only if [name] does not match
    [^[A-Z_]+$].  When it does not match, the error names [name], the
    symbol table is unchanged and [Parse] leaves its loop with that
    error; when it matches, the name is accepted: whatever else the
    declaration does, it reports no invalid name. *)
Theorem name_validation
    (p : Parser) (output raw line name V : string) (rest : list string) :
  dispatched_constant raw line ->
  declaration line name V ->
  ((exists e, snd (handleConstant p line) = Some e /\ name_error e)
   <-> ~ matches_name name)
  /\ (~ matches_name name ->
      handleConstant p line = (p, Some (ErrInvalidName name))
      /\ processLines (p, output) (raw :: rest)
         = ((p, output), Some (ErrInvalidName name)))
  /\ (matches_name name ->
      forall e, snd (handleConstant p line) = Some e -> ~ name_error e).
Proof.
  intros Hd Hdecl.
  assert (Hbad : ~ matches_name name ->
                 handleConstant p line = (p, Some (ErrInvalidName name))).
  { intros Hn. apply (handleConstant_invalid_name p line name V Hdecl).
    destruct (isValidName name) eqn:E; [|done].
    by apply isValidName_matches in E. }
  assert (Hgood : matches_name name ->
            forall e, snd (handleConstant p line) = Some e -> ~ name_error e).
  { intros Hm%isValidName_matches e.
    by apply (handleConstant_valid_name p line name V). }
  split; [split|split].
  - intros (e & He & Hne) Hm. by apply (Hgood Hm e).
  - intros Hn. exists (ErrInvalidName name). by rewrite (Hbad Hn).
  - intros Hn. split; [by apply Hbad|].
    apply processLines_abort.
    rewrite (processLine_constant p output raw line Hd). by rewrite (Hbad Hn).
  - exact Hgood.
Qed.

Lemma name_validation_witness :
  handleConstant NewParser "invalid_name := 42;"
    = (NewParser, Some (ErrInvalidName "invalid_name")).
Proof.
  refine (proj1 (proj1 (proj2 (name_validation NewParser EmptyString
            "invalid_name := 42;" "invalid_name := 42;" "invalid_name" "42"
            [] _ _)) _)).
  - repeat split; reflexivity.
  - exists "invalid_name ", " 42". repeat split; reflexivity.
  - intros Hm%isValidName_matches. discriminate.
Defined.

End name_check.

(** * C8: [ord] of an empty text *)

(** C8.  In a declaration of [N] whose value is the expression [ord S],
    when [S] resolves to the empty text the evaluation fails with the
    empty-string error, [handleConstant] returns it with the symbol
    table as it was (no binding of [N]), and [Parse] leaves its loop
    with that error. *)
Theorem ord_empty_fails
    (p : Parser) (output raw line N V S : string) (rest : list string) :
  dispatched_constant raw line ->
  declaration line N V ->
  expression V ["ord"; S] ->
  isValidName N = true ->
  getStringValue p S = Ok EmptyString ->
  evaluateExpression p (strings.TrimSuffix (strings.TrimPrefix V "?(") ")")
    = Err ErrOrdEmpty
  /\ handleConstant p line = (p, Some ErrOrdEmpty)
  /\ processLines (p, output) (raw :: rest) = ((p, output), Some ErrOrdEmpty).
Proof.
  intros Hd (part0 & part1 & Hsplit & Hname & Hvalue) (Hpre & Hsuf & Hf)
    Hvalid Hs.
  assert (He : evaluateExpression p
                 (strings.TrimSuffix (strings.TrimPrefix V "?(") ")")
               = Err ErrOrdEmpty).
  { unfold evaluateExpression. rewrite Hf. simpl. by rewrite Hs. }
  assert (Hc : handleConstant p line = (p, Some ErrOrdEmpty)).
  { unfold handleConstant. rewrite Hsplit, Hname, Hvalue, Hvalid, Hpre, Hsuf.
    simpl. by rewrite He. }
  repeat split; [exact He|exact Hc|].
  apply processLines_abort.
  rewrite (processLine_constant p output raw line Hd). by rewrite Hc.
Qed.

Lemma ord_empty_fails_witness :
  let p := setVariable NewParser "E" (VString EmptyString) in
  handleConstant p "N := ?(ord E);" = (p, Some ErrOrdEmpty).
Proof.
  intros p.
  refine (proj1 (proj2 (ord_empty_fails p EmptyString
            "N := ?(ord E);" "N := ?(ord E);" "N" "?(ord E)" "E" [] _ _ _ _ _))).
  - repeat split; reflexivity.
  - exists "N ", " ?(ord E)". repeat split; reflexivity.
  - repeat split; reflexivity.
  - reflexivity.
  - reflexivity.
Defined.

(** * C9: anonymous arrays *)

Section array_facts.
Import strings.

(** C9, as stated.  The array stored by the line [[1, 2]] is reached by
    the next line through its synthesized name: with the array line the
    output is the array, without it the quoted name. *)
Lemma anonymous_array_is_reachable :
  snd (fst (convert NewParser ("[1, 2]" +:+ nl +:+ "key = _array_0")))
    = "key = [1, 2]" +:+ nl
  /\ snd (fst (convert NewParser "key = _array_0"))
     = "key = " +:+ quote +:+ "_array_0" +:+ quote +:+ nl.
Proof. split; reflexivity. Qed.

(** C9, as the program has it.  A line that is bracket-delimited and
    whose interior has a comma and no equality sign always succeeds: the
    rendered elements are stored under [_array_<count>], [count] being
    the number of symbols bound so far, nothing is written to the output
    and every other binding is kept.  Afterwards the array is what the
    token [_array_<count>] resolves to, and every other token resolves as
    it did before, in all three ways the program resolves tokens. *)
Theorem anonymous_array_stored
    (p : Parser) (output raw line : string) :
  TrimSpace raw = line ->
  HasPrefix line "[" = true ->
  HasSuffix line "]" = true ->
  let inner := TrimSpace (TrimSuffix (TrimPrefix line "[") "]") in
  Contains inner "," = true ->
  Contains inner "=" = false ->
  exists array,
    resolveElements p (Split inner ",") = Ok array
    /\ let name := "_array_"
                   +:+ strconv.FormatInt (Z.of_nat (size (variables p))) in
       let p' := setVariable p name (VStrings array) in
       processLine (p, output) raw = ((p', output), None)
       /\ resolveValue p' name = Ok (VStrings array)
       /\ forall token, token <> name ->
            variables p' !! token = variables p !! token
            /\ resolveValue p' token = resolveValue p token
            /\ getNumberValue p' token = getNumberValue p token
            /\ getStringValue p' token = getStringValue p token.
Proof.
  intros Htrim Hpre Hsuf inner Hcomma Heq.
  destruct (resolveElements_ok p (Split inner ",")) as [array Harray].
  exists array. split; [exact Harray|]. intros name p'. split; [|split].
  - unfold processLine. rewrite Htrim.
    rewrite (HasPrefix_nonempty _ _ _ Hpre).
    rewrite (HasPrefix_first line "[" "/" EmptyString "/" Hpre) by discriminate.
    rewrite (HasSuffix_last line "]" ";" Hsuf) by discriminate.
    rewrite andb_false_r, Hpre, Hsuf. simpl.
    fold inner. by rewrite Hcomma, Heq, Harray.
  - unfold resolveValue, p'. simpl. by rewrite lookup_insert_eq.
  - intros token Hne. repeat split.
    + unfold p'. simpl. by rewrite lookup_insert_ne.
    + by apply resolveValue_other.
    + by apply getNumberValue_other.
    + by apply getStringValue_other.
Qed.

Lemma anonymous_array_stored_witness :
  exists array,
    resolveElements NewParser (Split "1, 2" ",") = Ok array
    /\ processLine (NewParser, EmptyString) " [1, 2]"
       = ((setVariable NewParser "_array_0" (VStrings array), EmptyString),
          None).
Proof.
  destruct (anonymous_array_stored NewParser EmptyString " [1, 2]" "[1, 2]")
    as (array & Harray & Hline & _); try reflexivity.
  exists array. split; [exact Harray|exact Hline].
Defined.

End array_facts.

(** * C10: an unterminated expression form is plain text *)

(** C10.  A declaration of [N] whose value text [V] starts with [?(] and
    does not end with [)] never fails: [N] is bound to the value of the
    symbol named [V] if there is one and to the text [V] itself
    otherwise, and the loop of [Parse] goes on with the next line. *)
Theorem unterminated_expression_is_text
    (p : Parser) (output raw line N V : string) (rest : list string) :
  dispatched_constant raw line ->
  declaration line N V ->
  isValidName N = true ->
  strings.HasPrefix V "?(" = true ->
  strings.HasSuffix V ")" = false ->
  let bound := match variables p !! V with
               | Some val => val
               | None => VString V
               end in
  handleConstant p line = (setVariable p N bound, None)
  /\ variables (fst (handleConstant p line)) !! N = Some bound
  /\ (variables p !! V = None ->
      handleConstant p line = (setVariable p N (VString V), None)
      /\ variables (fst (handleConstant p line)) !! N = Some (VString V))
  /\ processLines (p, output) (raw :: rest)
     = processLines (setVariable p N bound, output) rest.
Proof.
  intros Hd (part0 & part1 & Hsplit & Hname & Hvalue) Hvalid Hpre Hsuf bound.
  assert (Hc : handleConstant p line = (setVariable p N bound, None)).
  { unfold handleConstant. rewrite Hsplit, Hname, Hvalue, Hvalid, Hpre, Hsuf.
    rewrite (HasPrefix_first V "?" "[" "(" EmptyString Hpre) by discriminate.
    assert (Hq : strings.HasPrefix V at_quote = false)
      by (by apply (HasPrefix_first V "?" "@" "(" quote Hpre)).
    rewrite Hq.
    rewrite (expr_prefix_not_number V Hpre). cbn [negb andb].
    subst bound. by destruct (variables p !! V). }
  split; [exact Hc|].
  split; [rewrite Hc; apply setVariable_lookup|]. split.
  - intros Hnone. rewrite Hc. subst bound. rewrite Hnone.
    split; [reflexivity|apply setVariable_lookup].
  - apply processLines_continue.
    rewrite (processLine_constant p output raw line Hd). by rewrite Hc.
Qed.

Lemma unterminated_expression_is_text_witness :
  variables (fst (handleConstant NewParser "N := ?(+ 1 2;")) !! "N"
  = Some (VString "?(+ 1 2").
Proof.
  refine (proj1 (proj2 (unterminated_expression_is_text NewParser EmptyString
            " N := ?(+ 1 2;" "N := ?(+ 1 2;" "N" "?(+ 1 2" [] _ _ _ _ _))).
  - repeat split; reflexivity.
  - exists "N ", " ?(+ 1 2". repeat split; reflexivity.
  - reflexivity.
  - reflexivity.
  - reflexivity.
Defined.

(** * Further properties of the evaluator *)

Section evaluator_properties.
Import strings.
Local Open Scope Z_scope.

Lemma wrap64_range (z : Z) : int64 (strconv.wrap64 z).
Proof.
  unfold int64, strconv.wrap64, strconv.minInt64, strconv.maxInt64.
  change (2 ^ 63) with 9223372036854775808.
  change (2 ^ 64) with 18446744073709551616.
  Z.div_mod_to_equations. lia.
Qed.

Lemma wrap64_exact (z : Z) : int64 z -> strconv.wrap64 z = z.
Proof.
  unfold int64, strconv.wrap64, strconv.minInt64, strconv.maxInt64.
  change (2 ^ 63) with 9223372036854775808.
  change (2 ^ 64) with 18446744073709551616.
  intros H. Z.div_mod_to_equations. lia.
Qed.

Lemma wrap64_congruent (z : Z) : (strconv.wrap64 z - z) mod 2 ^ 64 = 0.
Proof.
  unfold strconv.wrap64.
  change (2 ^ 63) with 9223372036854775808.
  change (2 ^ 64) with 18446744073709551616.
  Z.div_mod_to_equations. lia.
Qed.

(** X1.  [abs] of a 64-bit operand [v] is the absolute value of [v],
    except for the least integer, which is its own negation in 64 bits
    and stays negative.  Taking [abs] of the result changes nothing. *)
Theorem abs_value (p : Parser) (expr t : string) (v : Z) :
  Fields expr = ["abs"; t] ->
  getNumberValue p t = Ok v ->
  int64 v ->
  let r := if v =? strconv.minInt64 then strconv.minInt64 else Z.abs v in
  evaluateExpression p expr = Ok r
  /\ forall p' expr' t',
       Fields expr' = ["abs"; t'] -> getNumberValue p' t' = Ok r ->
       evaluateExpression p' expr' = Ok r.
Proof.
  intros Hf Hv Hrange r.
  assert (Habs : forall w, int64 w ->
            (if w <? 0 then Ok (strconv.wrap64 (- w)) else Ok w)
            = Ok (if w =? strconv.minInt64 then strconv.minInt64 else Z.abs w)).
  { intros w Hw. unfold int64, strconv.minInt64, strconv.maxInt64 in *.
    destruct (Z.ltb_spec w 0); destruct (Z.eqb_spec w (- 2 ^ 63)); f_equal;
      try lia.
    - subst w. reflexivity.
    - rewrite wrap64_exact;
        [lia|unfold int64, strconv.minInt64, strconv.maxInt64; lia]. }
  split.
  - rewrite (evaluate_abs _ _ _ Hf), Hv. cbn [mbind result_bind].
    by apply Habs.
  - intros p' expr' t' Hf' Hr.
    rewrite (evaluate_abs _ _ _ Hf'), Hr. cbn [mbind result_bind].
    assert (Hr64 : int64 r).
    { unfold r, int64, strconv.minInt64, strconv.maxInt64 in *.
      destruct (Z.eqb_spec v (- 2 ^ 63)); lia. }
    rewrite (Habs r Hr64). f_equal. unfold r.
    unfold int64, strconv.minInt64, strconv.maxInt64 in *.
    destruct (Z.eqb_spec v (- 2 ^ 63)); [reflexivity|].
    destruct (Z.eqb_spec (Z.abs v) (- 2 ^ 63)); lia.
Qed.

Lemma abs_value_witness :
  evaluateExpression NewParser "abs -15" = Ok 15
  /\ evaluateExpression NewParser "abs -9223372036854775808"
     = Ok (-9223372036854775808).
Proof.
  split.
  - refine (proj1 (abs_value NewParser "abs -15" "-15" (-15) _ _ _));
      [reflexivity|reflexivity|].
    unfold int64, strconv.minInt64, strconv.maxInt64. lia.
  - refine (proj1 (abs_value NewParser "abs -9223372036854775808"
                     "-9223372036854775808" (-9223372036854775808) _ _ _));
      [reflexivity|reflexivity|].
    unfold int64, strconv.minInt64, strconv.maxInt64. lia.
Defined.

(** X2.  [+] and [-] of two operands that denote [a] and [b] always
    succeed; the result is a 64-bit value congruent to the exact sum or
    difference modulo [2^64], and is that exact value whenever it is a
    64-bit value itself. *)
Theorem add_sub_value (p : Parser) (expr t1 t2 : string) (a b : Z) :
  getNumberValue p t1 = Ok a -> getNumberValue p t2 = Ok b ->
  (Fields expr = ["+"; t1; t2] ->
     exists r, evaluateExpression p expr = Ok r /\ int64 r
               /\ (r - (a + b)) mod 2 ^ 64 = 0
               /\ (int64 (a + b) -> r = a + b))
  /\ (Fields expr = ["-"; t1; t2] ->
     exists r, evaluateExpression p expr = Ok r /\ int64 r
               /\ (r - (a - b)) mod 2 ^ 64 = 0
               /\ (int64 (a - b) -> r = a - b)).
Proof.
  intros Ha Hb. split; intros Hf.
  - exists (strconv.wrap64 (a + b)).
    rewrite (evaluate_add _ _ _ _ Hf), Ha, Hb.
    split; [reflexivity|]. split; [apply wrap64_range|].
    split; [apply wrap64_congruent|apply wrap64_exact].
  - exists (strconv.wrap64 (a - b)).
    rewrite (evaluate_sub _ _ _ _ Hf), Ha, Hb.
    split; [reflexivity|]. split; [apply wrap64_range|].
    split; [apply wrap64_congruent|apply wrap64_exact].
Qed.

Lemma add_sub_value_witness :
  exists r, evaluateExpression NewParser "+ 9223372036854775807 1" = Ok r
            /\ int64 r
            /\ (r - (9223372036854775807 + 1)) mod 2 ^ 64 = 0
            /\ (int64 (9223372036854775807 + 1) -> r = 9223372036854775807 + 1).
Proof.
  apply (proj1 (add_sub_value NewParser "+ 9223372036854775807 1"
                  "9223372036854775807" "1" 9223372036854775807 1
                  eq_refl eq_refl)).
  reflexivity.
Defined.

Lemma eqb_ne (s t : string) : s <> t -> String.eqb s t = false.
Proof. apply String.eqb_neq. Qed.

(** X3.  The shape errors of an expression.  With fewer than two tokens
    (nothing, or an operator alone, known or not) the expression is
    invalid; a known operator with the wrong number of operands is
    invalid; an unknown operator followed by at least one operand is
    reported by name. *)
Theorem expression_shape_errors (p : Parser) (expr : string) :
  ((length (Fields expr) < 2)%nat ->
     evaluateExpression p expr = Err ErrInvalidExpression)
  /\ (forall op args,
        Fields expr = op :: args ->
        (op = "+" \/ op = "-") -> length args <> 2%nat ->
        evaluateExpression p expr = Err ErrInvalidExpression)
  /\ (forall op args,
        Fields expr = op :: args ->
        (op = "ord" \/ op = "abs") -> length args <> 1%nat ->
        evaluateExpression p expr = Err ErrInvalidExpression)
  /\ (forall op args,
        Fields expr = op :: args -> args <> [] ->
        op <> "+" -> op <> "-" -> op <> "ord" -> op <> "abs" ->
        evaluateExpression p expr = Err (ErrUnknownOperation op)).
Proof.
  unfold evaluateExpression. repeat split.
  - intros H. apply Nat.ltb_lt in H. by rewrite H.
  - intros op args Hf Hop Hlen. rewrite Hf.
    destruct args as [|t1 [|t2 [|t3 args]]]; cbn [length Nat.ltb Nat.leb];
      try reflexivity; by destruct Hop as [-> | ->].
  - intros op args Hf Hop Hlen. rewrite Hf.
    destruct args as [|t1 [|t2 args]]; cbn [length Nat.ltb Nat.leb];
      try reflexivity; by destruct Hop as [-> | ->].
  - intros op args Hf Hargs H1 H2 H3 H4. rewrite Hf.
    destruct args as [|t1 args]; [done|]. cbn [length Nat.ltb Nat.leb].
    by rewrite (eqb_ne _ _ H1), (eqb_ne _ _ H2), (eqb_ne _ _ H3),
      (eqb_ne _ _ H4).
Qed.

Lemma expression_shape_errors_witness :
  evaluateExpression NewParser "mul" = Err ErrInvalidExpression
  /\ evaluateExpression NewParser "+ 1 2 3" = Err ErrInvalidExpression
  /\ evaluateExpression NewParser "mul 2 3" = Err (ErrUnknownOperation "mul").
Proof.
  destruct (expression_shape_errors NewParser "mul") as (H1 & _).
  destruct (expression_shape_errors NewParser "+ 1 2 3") as (_ & H2 & _).
  destruct (expression_shape_errors NewParser "mul 2 3") as (_ & _ & _ & H3).
  split; [apply H1; vm_compute; lia|]. split.
  - apply (H2 "+" ["1"; "2"; "3"]); [reflexivity|by left|discriminate].
  - apply (H3 "mul" ["2"; "3"]); [reflexivity|discriminate..].
Defined.

(** X4.  No coercion between the kinds of values.  A symbol bound to a
    text, even a text of digits, is rejected as an operand of [+], [-]
    and [abs]; a symbol bound to an integer is rejected as the operand
    of [ord]; a symbol bound to an array is rejected by both.  The error
    names the symbol. *)
Theorem operand_kind_mismatch (p : Parser) (t : string) (val : Value) :
  variables p !! t = Some val ->
  let number_error := match val with
                      | VInt _ => None
                      | VString _ => Some (ErrNotNumber t)
                      | VStrings _ => Some (ErrUnsupportedType t)
                      end in
  let text_error := match val with
                    | VString _ => None
                    | VInt _ => Some (ErrNotString t)
                    | VStrings _ => Some (ErrUnsupportedType t)
                    end in
  (forall e, number_error = Some e ->
     getNumberValue p t = Err e
     /\ forall expr op t2,
          (op = "+" \/ op = "-") ->
          (Fields expr = [op; t; t2] \/ Fields expr = ["abs"; t]) ->
          evaluateExpression p expr = Err e)
  /\ (forall e, text_error = Some e ->
        getStringValue p t = Err e
        /\ forall expr, Fields expr = ["ord"; t] ->
             evaluateExpression p expr = Err e).
Proof.
  intros Hval number_error text_error. split.
  - intros e He.
    assert (Hget : getNumberValue p t = Err e).
    { unfold getNumberValue. rewrite Hval.
      destruct val; cbn in He; by inversion He. }
    split; [exact Hget|]. intros expr op t2 Hop [Hf|Hf].
    + destruct Hop as [-> | ->];
        [rewrite (evaluate_add _ _ _ _ Hf)|rewrite (evaluate_sub _ _ _ _ Hf)];
        by rewrite Hget.
    + by rewrite (evaluate_abs _ _ _ Hf), Hget.
  - intros e He.
    assert (Hget : getStringValue p t = Err e).
    { unfold getStringValue. rewrite Hval.
      destruct val; cbn in He; by inversion He. }
    split; [exact Hget|]. intros expr Hf.
    by rewrite (evaluate_ord _ _ _ Hf), Hget.
Qed.

Lemma operand_kind_mismatch_witness :
  evaluateExpression (setVariable NewParser "X" (VString "42")) "+ X 1"
  = Err (ErrNotNumber "X").
Proof.
  destruct (operand_kind_mismatch (setVariable NewParser "X" (VString "42"))
              "X" (VString "42") eq_refl) as [Hn _].
  destruct (Hn (ErrNotNumber "X") eq_refl) as [_ He].
  apply (He "+ X 1" "+" "1"); [by left|by left].
Defined.

(** The errors of the evaluator are of the kinds listed in
    [evaluation_error]. *)
Lemma evaluateExpression_errors p expr e :
  evaluateExpression p expr = Err e -> evaluation_error e.
Proof.
  assert (Hnum : forall t e, getNumberValue p t = Err e -> evaluation_error e).
  { intros t e'. unfold getNumberValue.
    destruct (variables p !! t) as [[]|]; try discriminate;
      try (intros [= <-]; exact I).
    intros (fn & num & kind & ->)%parseNumber_error. exact I. }
  assert (Hstr : forall t e, getStringValue p t = Err e -> evaluation_error e).
  { intros t e'. unfold getStringValue.
    destruct (variables p !! t) as [[]|]; try discriminate;
      try (intros [= <-]; exact I).
    destruct (_ && _); discriminate. }
  unfold evaluateExpression.
  destruct (Fields expr) as [|op [|t1 [|t2 [|t3 args]]]];
    cbn [length Nat.ltb Nat.leb];
    try (intros [= <-]; exact I);
    repeat match goal with
           | |- context [String.eqb op ?s] => destruct (String.eqb op s)
           end;
    try (intros [= <-]; exact I).
  all: repeat match goal with
       | |- context [getNumberValue ?q ?t] =>
         let E := fresh "E" in
         destruct (getNumberValue q t) eqn:E; cbn [mbind result_bind];
         [|intros [= <-]; by eapply Hnum]
       | |- context [getStringValue ?q ?t] =>
         let E := fresh "E" in
         destruct (getStringValue q t) eqn:E; cbn [mbind result_bind];
         [|intros [= <-]; by eapply Hstr]
       end.
  all: try discriminate.
  - match goal with
    | |- context [(String.length ?s =? 0)%nat] =>
      destruct (String.length s =? 0)%nat; [intros [= <-]; exact I|];
      destruct (strings.HasPrefix s quote && strings.HasSuffix s quote);
      [destruct (strings.TrimSuffix (strings.TrimPrefix s quote) quote)
      |destruct s]
    end; try discriminate; intros [= <-]; exact I.
  - match goal with
    | |- context [(?v <? 0)%Z] => destruct (v <? 0)%Z
    end; discriminate.
Qed.

End evaluator_properties.

(** * Further properties of declarations *)

Section number_ranges.
Import strings.
Local Open Scope Z_scope.

Lemma parseUintLoop_nonneg base n s v :
  0 <= base -> 0 <= n -> strconv.parseUintLoop base n s = inl v -> 0 <= v.
Proof.
  intros Hbase. revert n. induction s as [|c s IH]; intros n Hn;
    cbn [strconv.parseUintLoop].
  - intros [= <-]. exact Hn.
  - destruct (Z.leb_spec 48 (byte c)); cbn [andb negb]; [|discriminate].
    destruct (byte c <=? 57); cbn [negb]; [|discriminate].
    destruct (base <=? byte c - 48); [discriminate|].
    destruct (_ <=? n); [discriminate|].
    destruct (_ <? _); [discriminate|].
    apply IH. nia.
Qed.

Lemma parseIntAs_range fn s base v :
  0 <= base -> strconv.parseIntAs fn s base = Ok v -> int64 v.
Proof.
  intros Hbase. unfold strconv.parseIntAs, int64, strconv.minInt64,
    strconv.maxInt64.
  destruct s as [|c s]; [discriminate|].
  match goal with
  | |- context [strconv.ParseUint ?d base] =>
    destruct (strconv.ParseUint d base) as [un|[]] eqn:Hu; try discriminate;
    assert (0 <= un)
      by (unfold strconv.ParseUint in Hu; destruct d; [discriminate|];
          by eapply (parseUintLoop_nonneg base 0); [exact Hbase| |exact Hu])
  end.
  destruct (Ascii.eqb c "-"); cbn [negb andb].
  - destruct (Z.ltb_spec (2 ^ 63) un); [discriminate|]. intros [= <-]. lia.
  - destruct (Z.leb_spec (2 ^ 63) un); [discriminate|]. intros [= <-]. lia.
Qed.

Lemma parseNumber_range s v : parseNumber s = Ok v -> int64 v.
Proof.
  unfold parseNumber, strconv.ParseInt, strconv.Atoi.
  destruct (_ || _); apply parseIntAs_range; lia.
Qed.

Lemma getNumberValue_range p t v :
  int_table p -> getNumberValue p t = Ok v -> int64 v.
Proof.
  intros Hp. unfold getNumberValue.
  destruct (variables p !! t) as [[z| |]|] eqn:E; try discriminate.
  - intros [= <-]. by apply (Hp t).
  - apply parseNumber_range.
Qed.

Lemma byte_int64 (c : ascii) : int64 (byte c).
Proof.
  pose proof (byte_range c).
  unfold int64, strconv.minInt64, strconv.maxInt64. lia.
Qed.

Lemma evaluateExpression_range p expr v :
  int_table p -> evaluateExpression p expr = Ok v -> int64 v.
Proof.
  intros Hp. unfold evaluateExpression.
  destruct (Fields expr) as [|op [|t1 [|t2 [|t3 args]]]];
    cbn [length Nat.ltb Nat.leb]; try discriminate;
    repeat match goal with
           | |- context [String.eqb op ?s] => destruct (String.eqb op s)
           end; try discriminate.
  all: repeat match goal with
       | |- context [getNumberValue ?q ?t] =>
         let E := fresh "E" in
         destruct (getNumberValue q t) eqn:E; cbn [mbind result_bind];
         [apply (getNumberValue_range _ _ _ Hp) in E|discriminate]
       | |- context [getStringValue ?q ?t] =>
         let E := fresh "E" in
         destruct (getStringValue q t) eqn:E; cbn [mbind result_bind];
         [|discriminate]
       end.
  all: try (intros [= <-]; apply wrap64_range).
  - match goal with
    | |- context [(String.length ?s =? 0)%nat] =>
      destruct (String.length s =? 0)%nat; [discriminate|];
      destruct (strings.HasPrefix s quote && strings.HasSuffix s quote);
      [destruct (strings.TrimSuffix (strings.TrimPrefix s quote) quote)
      |destruct s]
    end; try discriminate; intros [= <-]; apply byte_int64.
  - match goal with
    | |- context [(?z <? 0)%Z] => destruct (z <? 0)%Z
    end; intros [= <-]; [apply wrap64_range|done].
Qed.

End number_ranges.

Section declaration_properties.
Import strings.

(** What a call of [handleConstant] can do. *)
Lemma handleConstant_cases p line :
  (length (Split (TrimSuffix line ";") ":=") <> 2
   /\ handleConstant p line = (p, Some ErrInvalidSyntax))
  \/ exists name V,
       declaration line name V
       /\ ((isValidName name = false
            /\ handleConstant p line = (p, Some (ErrInvalidName name)))
           \/ (isValidName name = true
               /\ ((exists e, evaluation_error e
                              /\ handleConstant p line = (p, Some e))
                   \/ exists v,
                        handleConstant p line = (setVariable p name v, None)
                        /\ (int_table p -> forall z, v = VInt z -> int64 z)))).
Proof.
  unfold handleConstant.
  destruct (Split (TrimSuffix line ";") ":=") as [|part0 [|part1 [|part2 l]]]
    eqn:Hsplit; try (left; split; [simpl; lia|reflexivity]).
  right. exists (TrimSpace part0), (TrimSpace part1).
  split; [by exists part0, part1|].
  destruct (isValidName (TrimSpace part0)); [right|left; by split].
  split; [reflexivity|]. cbn [negb].
  set (V := TrimSpace part1). set (name := TrimSpace part0).
  destruct (HasPrefix V "?(" && HasSuffix V ")").
  { destruct (evaluateExpression p _) as [z|e] eqn:E.
    - right. exists (VInt z). split; [reflexivity|].
      intros Hp z' [= <-]. by eapply evaluateExpression_range.
    - left. exists e. split; [by eapply evaluateExpression_errors|done]. }
  destruct (HasPrefix V "[" && HasSuffix V "]").
  { destruct (resolveElements_ok p
                (Split (TrimSuffix (TrimPrefix V "[") "]") ",")) as [a ->].
    right. eexists. split; [reflexivity|]. discriminate. }
  destruct (HasPrefix V at_quote && HasSuffix V quote).
  { right. eexists. split; [reflexivity|]. discriminate. }
  destruct (isNumber V) eqn:Hnum.
  { rewrite isNumber_parseNumber in Hnum.
    destruct (parseNumber V) as [z|e] eqn:E; [|discriminate].
    right. exists (VInt z). split; [reflexivity|].
    intros _ z' [= <-]. by apply (parseNumber_range V). }
  destruct (variables p !! V) as [val|] eqn:Hval.
  - right. exists val. split; [reflexivity|].
    intros Hp z ->. by apply (Hp V).
  - right. eexists. split; [reflexivity|]. discriminate.
Qed.

(** X5.  Only expressions can make a declaration with a valid name
    fail: when the value text is not of the form [?(...)] the
    declaration binds the name, whatever the text is (array, quoted
    string, numeral, name of a symbol or anything else): after the call
    the name is bound in the symbol table. *)
Theorem plain_declaration_binds (p : Parser) (line N V : string) :
  declaration line N V ->
  isValidName N = true ->
  HasPrefix V "?(" && HasSuffix V ")" = false ->
  exists v,
    handleConstant p line = (setVariable p N v, None)
    /\ variables (fst (handleConstant p line)) !! N = Some v.
Proof.
  intros (part0 & part1 & Hsplit & Hname & Hvalue) Hvalid Hexpr.
  assert (H : exists v, handleConstant p line = (setVariable p N v, None)).
  { unfold handleConstant. rewrite Hsplit, Hname, Hvalue, Hvalid, Hexpr.
    cbn [negb].
    destruct (HasPrefix V "[" && HasSuffix V "]").
    { destruct (resolveElements_ok p
                  (Split (TrimSuffix (TrimPrefix V "[") "]") ",")) as [a ->].
      eauto. }
    destruct (HasPrefix V at_quote && HasSuffix V quote); [eauto|].
    destruct (isNumber V) eqn:Hnum.
    { rewrite isNumber_parseNumber in Hnum.
      destruct (parseNumber V); [eauto|discriminate]. }
    destruct (variables p !! V); eauto. }
  destruct H as [v Hc]. exists v. split; [exact Hc|].
  rewrite Hc. apply setVariable_lookup.
Qed.

Lemma plain_declaration_binds_witness :
  exists v, handleConstant NewParser "PORT := 8080;"
            = (setVariable NewParser "PORT" v, None)
            /\ variables (fst (handleConstant NewParser "PORT := 8080;"))
                 !! "PORT" = Some v.
Proof.
  apply (plain_declaration_binds NewParser "PORT := 8080;" "PORT" "8080").
  - exists "PORT ", " 8080". repeat split; reflexivity.
  - reflexivity.
  - reflexivity.
Defined.

(** X8.  A declaration changes at most the binding of the name it
    declares: every other symbol is bound after the call as it was
    before, whether the call fails or not. *)
Theorem handleConstant_frame (p : Parser) (line k : string) :
  (forall V, ~ declaration line k V) ->
  variables (fst (handleConstant p line)) !! k = variables p !! k.
Proof.
  intros Hk.
  destruct (handleConstant_cases p line)
    as [[_ ->]|(name & V & Hd & [[_ ->]|[_ [(e & _ & ->)|(v & -> & _)]]])];
    try reflexivity.
  cbn [fst setVariable variables]. apply lookup_insert_ne.
  intros ->. by apply (Hk V).
Qed.

Lemma declaration_name_unique line n1 n2 V1 V2 :
  declaration line n1 V1 -> declaration line n2 V2 -> n1 = n2.
Proof.
  intros (a & b & Ha & <- & _) (a' & b' & Ha' & <- & _).
  rewrite Ha in Ha'. by inversion Ha'.
Qed.

Lemma handleConstant_frame_witness :
  let p := setVariable NewParser "A" (VInt 1) in
  variables (fst (handleConstant p "B := 2;")) !! "A" = Some (VInt 1).
Proof.
  intros p.
  refine (eq_trans (handleConstant_frame p "B := 2;" "A" _) _);
    [|reflexivity].
  intros V Hd.
  assert (Hb : declaration "B := 2;" "B" "2")
    by (exists "B ", " 2"; repeat split; reflexivity).
  pose proof (declaration_name_unique _ _ _ _ _ Hd Hb). discriminate.
Defined.

End declaration_properties.

Section declared_values.
Import strings.

Lemma handleConstant_keeps p line name V k :
  declaration line name V -> k <> name ->
  variables (fst (handleConstant p line)) !! k = variables p !! k.
Proof.
  intros Hd Hk.
  destruct (handleConstant_cases p line)
    as [[_ ->]|(name' & V' & Hd' & [[_ ->]|[_ [(e & _ & ->)|(v & -> & _)]]])];
    try reflexivity.
  cbn [fst setVariable variables]. apply lookup_insert_ne.
  rewrite (declaration_name_unique _ _ _ _ _ Hd' Hd). congruence.
Qed.

Lemma matches_name_first (A : string) :
  matches_name A -> exists c r, A = String c r /\ name_char c.
Proof.
  intros [Hne Hall]. destruct A as [|c r]; [done|]. exists c, r.
  split; [done|]. cbn [list_ascii_of_string] in Hall.
  by apply Forall_cons in Hall as [H _].
Qed.

Lemma name_prefix_false (A : string) (x : ascii) (q : string) :
  matches_name A -> ~ name_char x -> HasPrefix A (String x q) = false.
Proof.
  intros (c & r & -> & Hc)%matches_name_first Hx.
  apply HasPrefix_cons_ne. by apply name_char_ne.
Qed.

Lemma name_not_number (A : string) : matches_name A -> isNumber A = false.
Proof.
  intros HA. unfold isNumber.
  rewrite (name_prefix_false A "0" "o" HA) by (by apply not_name_char).
  rewrite (name_prefix_false A "0" "O" HA) by (by apply not_name_char).
  cbn [orb]. destruct (matches_name_first A HA) as (c & r & -> & Hc).
  unfold strconv.Atoi, strconv.parseIntAs.
  assert (Hm : Ascii.eqb c "-" = false).
  { apply Ascii.eqb_neq. apply name_char_ne; [done|]. by apply not_name_char. }
  assert (Hp : Ascii.eqb c "+" = false).
  { apply Ascii.eqb_neq. apply name_char_ne; [done|]. by apply not_name_char. }
  rewrite Hm, Hp. cbn [orb strconv.ParseUint strconv.parseUintLoop].
  assert (Hd : (byte c <=? 57)%Z = false).
  { apply Z.leb_gt. unfold name_char in Hc. lia. }
  by rewrite Hd, andb_false_r.
Qed.

Lemma not_name_char_bracket : ~ name_char "[".
Proof. unfold name_char. change (byte "[") with 91%Z. lia. Qed.

(** X7.  A declaration whose value text is the name of a bound constant
    copies the value that constant has at that moment: the new name is
    bound to it, and declaring the first constant again later leaves the
    copy as it is. *)
Theorem alias_copies_value
    (p : Parser) (line A B : string) (v : Value) :
  matches_name A ->
  variables p !! A = Some v ->
  declaration line B A ->
  isValidName B = true ->
  handleConstant p line = (setVariable p B v, None)
  /\ forall line' V',
       declaration line' A V' -> A <> B ->
       variables (fst (handleConstant (setVariable p B v) line')) !! B
       = Some v.
Proof.
  intros HA Hv (part0 & part1 & Hsplit & Hname & Hvalue) Hvalid. split.
  - unfold handleConstant. rewrite Hsplit, Hname, Hvalue, Hvalid.
    rewrite (name_prefix_false A "?" "(" HA) by (by apply not_name_char).
    rewrite (name_prefix_false A "[" EmptyString HA)
      by apply not_name_char_bracket.
    assert (Hq : HasPrefix A at_quote = false)
      by (apply (name_prefix_false A "@" quote HA); by apply not_name_char).
    rewrite Hq, (name_not_number A HA), Hv. reflexivity.
  - intros line' V' Hd Hne.
    rewrite (handleConstant_keeps _ line' A V' B Hd) by congruence.
    cbn [setVariable variables]. apply lookup_insert_eq.
Qed.

Lemma alias_copies_value_witness :
  let p := setVariable NewParser "A" (VInt 10) in
  handleConstant p "B := A;" = (setVariable p "B" (VInt 10), None).
Proof.
  intros p.
  refine (proj1 (alias_copies_value p "B := A;" "A" "B" (VInt 10) _ _ _ _)).
  - split; [discriminate|]. constructor; [|constructor].
    unfold name_char. change (byte "A") with 65%Z. lia.
  - reflexivity.
  - exists "B ", " A". repeat split; reflexivity.
  - reflexivity.
Defined.

Lemma quoted_text_shape (text : string) :
  let V := at_quote +:+ text +:+ quote in
  HasPrefix V "?(" = false /\ HasPrefix V "[" = false
  /\ HasPrefix V at_quote = true /\ HasSuffix V quote = true
  /\ TrimSuffix (TrimPrefix V at_quote) quote = text.
Proof.
  intros V. split; [reflexivity|]. split; [reflexivity|].
  assert (Hp : HasPrefix V at_quote = true) by apply HasPrefix_app.
  assert (Hv : V = (at_quote +:+ text) +:+ quote)
    by (unfold V; by rewrite app_assoc_s).
  split; [exact Hp|]. split; [rewrite Hv; apply HasSuffix_app|].
  unfold TrimPrefix. rewrite Hp. unfold V. rewrite drop_app.
  apply TrimSuffix_app.
Qed.

(** X6.  A declared text comes back as it was written.  The declaration
    of [N] with the value [@], double quote, [text], double quote binds
    [N] to [text], byte for byte (no escape is interpreted); a key-value
    line whose value is [N] then shows that text between double quotes,
    or bare when it is [true] or [false]. *)
Theorem text_constant_round_trip
    (p : Parser) (line N text kv key output : string) :
  declaration line N (at_quote +:+ text +:+ quote) ->
  isValidName N = true ->
  keyvalue kv key N ->
  let p' := setVariable p N (VString text) in
  handleConstant p line = (p', None)
  /\ handleKeyValue p' kv output
     = (output +:+ key +:+ " = " +:+ shownText text +:+ nl, None).
Proof.
  intros (part0 & part1 & Hsplit & Hname & Hvalue) Hvalid Hkv p'.
  destruct (quoted_text_shape text) as (H1 & H2 & H3 & H4 & H5).
  split.
  - unfold handleConstant.
    rewrite Hsplit, Hname, Hvalue, Hvalid, H1, H2, H3, H4, H5. reflexivity.
  - apply (handleKeyValue_constant p' kv key N (VString text) output Hkv).
    unfold p'. cbn [setVariable variables]. apply lookup_insert_eq.
Qed.

Lemma text_constant_round_trip_witness :
  let line := "HOST := " +:+ at_quote +:+ "localhost" +:+ quote +:+ ";" in
  let p' := setVariable NewParser "HOST" (VString "localhost") in
  handleConstant NewParser line = (p', None)
  /\ handleKeyValue p' "host = HOST" EmptyString
     = ("host = " +:+ shownText "localhost" +:+ nl, None).
Proof.
  intros line p'.
  apply (text_constant_round_trip NewParser line "HOST" "localhost"
           "host = HOST" "host" EmptyString).
  - exists "HOST ", (" " +:+ at_quote +:+ "localhost" +:+ quote).
    repeat split; reflexivity.
  - reflexivity.
  - exists "host ", " HOST". repeat split; reflexivity.
Defined.

Lemma resolveElements_map p values :
  resolveElements p values
  = Ok (map (elementText p) (filter (fun v => nonblank v = true) values)).
Proof.
  induction values as [|v values IH]; [reflexivity|].
  cbn [resolveElements]. unfold nonblank at 1.
  rewrite filter_cons. unfold nonblank at 1.
  destruct (isEmpty (TrimSpace v)) eqn:E; cbn [negb].
  - rewrite decide_False by discriminate. exact IH.
  - rewrite decide_True by reflexivity. cbn [map]. unfold elementText at 1.
    destruct (resolveValue_ok p (TrimSpace v)) as [val ->].
    cbn [mbind result_bind]. by rewrite IH.
Qed.

(** X9.  A declaration whose value text is bracket-delimited never
    fails: the name is bound to the array of the texts of the elements
    between the commas, in order, the blank ones left out (so a trailing
    comma adds nothing); each element is resolved on its own and stored
    as the text [%v] prints for it. *)
Theorem array_declaration (p : Parser) (line N V : string) :
  declaration line N V ->
  isValidName N = true ->
  HasPrefix V "[" = true -> HasSuffix V "]" = true ->
  let values := Split (TrimSuffix (TrimPrefix V "[") "]") "," in
  let array := map (elementText p)
                   (filter (fun v => nonblank v = true) values) in
  handleConstant p line = (setVariable p N (VStrings array), None)
  /\ variables (fst (handleConstant p line)) !! N = Some (VStrings array).
Proof.
  intros (part0 & part1 & Hsplit & Hname & Hvalue) Hvalid Hpre Hsuf values
    array.
  assert (Hc : handleConstant p line
               = (setVariable p N (VStrings array), None)).
  { unfold handleConstant. rewrite Hsplit, Hname, Hvalue, Hvalid.
    rewrite (HasPrefix_first V "[" "?" EmptyString "(" Hpre) by discriminate.
    rewrite Hpre, Hsuf. cbn [negb andb]. fold values.
    by rewrite resolveElements_map. }
  split; [exact Hc|]. rewrite Hc. apply setVariable_lookup.
Qed.

Lemma array_declaration_witness :
  handleConstant NewParser "PORTS := [ 80, 0o17, x, ];"
  = (setVariable NewParser "PORTS" (VStrings ["80"; "15"; "x"]), None)
  /\ variables (fst (handleConstant NewParser "PORTS := [ 80, 0o17, x, ];"))
       !! "PORTS"
     = Some (VStrings ["80"; "15"; "x"]).
Proof.
  apply (array_declaration NewParser "PORTS := [ 80, 0o17, x, ];" "PORTS"
           "[ 80, 0o17, x, ]").
  - exists "PORTS ", " [ 80, 0o17, x, ]". repeat split; reflexivity.
  - reflexivity.
  - reflexivity.
  - reflexivity.
Defined.

End declared_values.

(** * Further properties of the lines *)

Section line_properties.
Import strings.

(** X10.  [handleConstant] reports a syntax error exactly when, the
    final [;] removed, the line is not cut by [:=] into two parts (no
    [:=], or more than one); the symbol table is then unchanged. *)
Theorem declaration_syntax_error (p : Parser) (line : string) :
  (snd (handleConstant p line) = Some ErrInvalidSyntax
   <-> length (Split (TrimSuffix line ";") ":=") <> 2)
  /\ (length (Split (TrimSuffix line ";") ":=") <> 2 ->
      handleConstant p line = (p, Some ErrInvalidSyntax)).
Proof.
  destruct (handleConstant_cases p line)
    as [[Hlen H]|(name & V & (a & b & Hs & _) & H)].
  - split; [|done]. rewrite H. by split.
  - assert (Hlen : length (Split (TrimSuffix line ";") ":=") = 2)
      by (by rewrite Hs).
    split; [|intros; lia]. split; [|intros; lia]. intros Herr. exfalso.
    destruct H as [[_ H]|[_ [(e & He & H)|(v & H & _)]]];
      rewrite H in Herr; cbn [snd] in Herr;
      [discriminate| |discriminate].
    injection Herr as ->. exact He.
Qed.

Lemma genSplit_nonempty n s sep : 1 <= length (genSplit n s sep).
Proof.
  destruct n; cbn [genSplit]; [simpl; lia|].
  destruct (Index s sep); simpl; lia.
Qed.

(** X11.  A value text that contains [:=], for instance inside a quoted
    string, cannot be declared: even with a valid name the line is a
    syntax error, and nothing is bound. *)
Theorem assign_in_value_rejected (p : Parser) (N V : string) :
  matches_name N ->
  Contains V ":=" = true ->
  handleConstant p (N +:+ " := " +:+ V +:+ ";") = (p, Some ErrInvalidSyntax).
Proof.
  intros HN HV.
  assert (Hline : N +:+ " := " +:+ V +:+ ";" = (N +:+ " := " +:+ V) +:+ ";")
    by (by rewrite !app_assoc_s).
  unfold handleConstant. rewrite Hline, TrimSuffix_app.
  assert (Hi : Index (N +:+ " := " +:+ V) ":=" = Some (String.length N + 1)).
  { rewrite (Index_app_skip N _ ":" "="); [reflexivity|].
    apply matches_name_skip; [done|]. by apply not_name_char. }
  unfold Contains in HV. destruct (Index V ":=") as [j|] eqn:Hj; [|discriminate].
  assert (Hv : 2 <= String.length V)
    by (apply Index_bound in Hj; simpl in Hj; lia).
  unfold Split. rewrite length_app_s.
  change (String.length (" := " +:+ V)) with (S (S (S (S (String.length V))))).
  destruct (String.length V) as [|[|n]] eqn:En; [lia|lia|].
  rewrite Nat.add_succ_r. cbn [genSplit]. rewrite Hi, take_app_plus.
  replace (String.length N + 1 + String.length ":=")
    with (String.length N + 3) by (simpl; lia).
  rewrite drop_app_plus. change (drop 3 (" := " +:+ V)) with (" " +:+ V).
  rewrite Nat.add_succ_r. cbn [genSplit].
  change (Index (" " +:+ V) ":=") with (S <$> Index V ":="). rewrite Hj.
  cbn [fmap option_fmap option_map].
  pose proof (genSplit_nonempty (String.length N + S (S (S (S n))))
                (drop (S j + String.length ":=") (" " +:+ V)) ":=") as Hne.
  destruct (genSplit _ _ ":=") as [|x l]; [simpl in Hne; lia|].
  reflexivity.
Qed.

Lemma assign_in_value_rejected_witness :
  handleConstant NewParser
    ("X := " +:+ at_quote +:+ "a:=b" +:+ quote +:+ ";")
  = (NewParser, Some ErrInvalidSyntax).
Proof.
  apply (assign_in_value_rejected NewParser "X"
           (at_quote +:+ "a:=b" +:+ quote)).
  - split; [discriminate|]. constructor; [|constructor].
    unfold name_char. change (byte "X") with 88%Z. lia.
  - reflexivity.
Defined.

Lemma SplitN2_found (line : string) (i : nat) :
  Index line "=" = Some i ->
  SplitN2 line "=" = [take i line; drop (i + 1) line].
Proof. intros H. unfold SplitN2. cbn [genSplit]. by rewrite H. Qed.

(** X12.  A key-value line cannot fail.  [handleKeyValue] fails, with a
    syntax error and without output, exactly on a line that has no [=],
    and the loop of [Parse] calls it only on lines that have one: such a
    line adds to the output the text before the first [=], trimmed,
    then [ = ], the value resolved from the trimmed rest, and a newline,
    and leaves the symbol table as it is. *)
Theorem keyvalue_line_never_fails (p : Parser) (output raw : string) :
  let line := TrimSpace raw in
  (Contains line "=" = false ->
     handleKeyValue p line output = (output, Some ErrInvalidSyntax))
  /\ (isEmpty line = false -> HasPrefix line "//" = false ->
      Contains line ":=" = false ->
      HasPrefix line "[" && HasSuffix line "]" = false ->
      Contains line "=" = true ->
      exists key valueStr value,
        keyvalue line key valueStr
        /\ resolveValue p valueStr = Ok value
        /\ processLine (p, output) raw
           = ((p, output +:+ key +:+ " = " +:+ formatValue value +:+ nl),
              None)).
Proof.
  intros line. split.
  - intros H. unfold handleKeyValue, SplitN2. cbn [genSplit].
    by rewrite (Contains_false _ _ H).
  - intros He Hc Ha Hb Heq.
    unfold Contains in Heq.
    destruct (Index line "=") as [i|] eqn:Hi; [|discriminate].
    destruct (resolveValue_ok p (TrimSpace (drop (i + 1) line)))
      as [value Hval].
    exists (TrimSpace (take i line)), (TrimSpace (drop (i + 1) line)), value.
    split; [|split; [exact Hval|]].
    + exists (take i line), (drop (i + 1) line).
      by rewrite (SplitN2_found line i Hi).
    + unfold processLine. fold line.
      rewrite He, Hc, Ha, Hb. cbn [andb negb].
      assert (Heq' : Contains line "=" = true)
        by (unfold Contains; by rewrite Hi).
      rewrite Heq'. cbn [andb].
      unfold handleKeyValue. by rewrite (SplitN2_found line i Hi), Hval.
Qed.

Lemma keyvalue_line_never_fails_witness :
  exists key valueStr value,
    keyvalue "port = 8080" key valueStr
    /\ resolveValue NewParser valueStr = Ok value
    /\ processLine (NewParser, EmptyString) "  port = 8080"
       = ((NewParser, EmptyString +:+ key +:+ " = " +:+ formatValue value +:+ nl),
          None).
Proof.
  apply (proj2 (keyvalue_line_never_fails NewParser EmptyString
                  "  port = 8080")); reflexivity.
Defined.

(** A text that has [:=] has [=]. *)
Lemma Contains_assign s : Contains s ":=" = true -> Contains s "=" = true.
Proof.
  unfold Contains. induction s as [|c s IH]; [discriminate|].
  cbn [Index].
  destruct (HasPrefix (String c s) "=") eqn:He; [done|].
  destruct (HasPrefix (String c s) ":=") eqn:Ha.
  - intros _. destruct s as [|d s].
    + change (Ascii.eqb ":" c && false = true) in Ha.
      by rewrite andb_false_r in Ha.
    + change (Ascii.eqb ":" c && (Ascii.eqb "=" d && true) = true) in Ha.
      apply andb_true_iff in Ha as [_ Hd].
      cbn [Index]. change (HasPrefix (String d s) "=")
        with (Ascii.eqb "=" d && true). by rewrite Hd.
  - destruct (Index s ":="); [|discriminate].
    intros _. by destruct (Index s "="); [|discriminate IH].
Qed.

(** X13.  Lines that are dropped without a word.  A blank line, a line
    that starts with [//], and any line that matches no rule are skipped:
    no error, no output, no binding.  The lines that match no rule are
    those that are not bracket-delimited and either have [:=] without
    the final [;] (a declaration that lacks its [;]) or have no [=] at
    all, with or without a final [;]. *)
Theorem ignored_line (st : Parser * string) (raw : string) :
  let line := TrimSpace raw in
  isEmpty line = true
  \/ HasPrefix line "//" = true
  \/ (HasPrefix line "[" && HasSuffix line "]" = false
      /\ ((Contains line ":=" = true /\ HasSuffix line ";" = false)
          \/ Contains line "=" = false)) ->
  processLine st raw = (st, None).
Proof.
  intros line H. unfold processLine. destruct st as [p output]. fold line.
  destruct H as [H|[H|(Hb & H)]].
  - by rewrite H.
  - rewrite H. by destruct (isEmpty line).
  - rewrite Hb.
    destruct (isEmpty line); [done|]. destruct (HasPrefix line "//"); [done|].
    destruct H as [[Ha Hs]|He].
    + rewrite Ha, Hs. cbn [andb negb]. by rewrite andb_false_r.
    + destruct (Contains line ":=") eqn:Ha.
      * apply Contains_assign in Ha. congruence.
      * rewrite He. reflexivity.
Qed.

Lemma ignored_line_witness :
  processLine (NewParser, EmptyString) "PORT := 8080"
  = ((NewParser, EmptyString), None)
  /\ processLine (NewParser, EmptyString) "hello;"
     = ((NewParser, EmptyString), None).
Proof.
  split.
  - apply (ignored_line (NewParser, EmptyString) "PORT := 8080").
    right. right. split; [reflexivity|]. left. by split.
  - apply (ignored_line (NewParser, EmptyString) "hello;").
    right. right. split; [reflexivity|]. by right.
Defined.

(** X14.  A bracket-delimited line whose interior has no comma, or has
    an equality sign, is a section header: the interior, trimmed, is
    written between brackets on a line of its own, and nothing is
    bound. *)
Theorem section_header_line (p : Parser) (output raw : string) :
  let line := TrimSpace raw in
  let inner := TrimSpace (TrimSuffix (TrimPrefix line "[") "]") in
  HasPrefix line "[" = true ->
  HasSuffix line "]" = true ->
  Contains inner "," = false \/ Contains inner "=" = true ->
  processLine (p, output) raw
  = ((p, output +:+ "[" +:+ inner +:+ "]" +:+ nl), None).
Proof.
  intros line inner Hpre Hsuf H. unfold processLine. fold line.
  rewrite (HasPrefix_nonempty _ _ _ Hpre).
  rewrite (HasPrefix_first line "[" "/" EmptyString "/" Hpre) by discriminate.
  rewrite (HasSuffix_last line "]" ";" Hsuf) by discriminate.
  rewrite andb_false_r, Hpre, Hsuf. cbn [andb]. fold inner.
  by destruct H as [-> | ->]; rewrite ?andb_false_r.
Qed.

Lemma section_header_line_witness :
  processLine (NewParser, EmptyString) "[ network ]"
  = ((NewParser, "[network]" +:+ nl), None).
Proof.
  apply (section_header_line NewParser EmptyString "[ network ]");
    [reflexivity|reflexivity|by left].
Defined.

End line_properties.

(** * Further properties of comment removal *)

Section comment_properties.
Import strings.

Lemma Index_cons_none c s sep :
  Index (String c s) sep = None -> Index s sep = None.
Proof.
  cbn [Index]. destruct (HasPrefix (String c s) sep); [discriminate|].
  by destruct (Index s sep).
Qed.

Lemma Index_drop_none (n : nat) (s sep : string) :
  Index s sep = None -> Index (drop n s) sep = None.
Proof.
  revert s. induction n as [|n IH]; intros s H; [by destruct s|].
  destruct s as [|c s]; [exact H|]. cbn [drop]. apply IH.
  by apply Index_cons_none in H.
Qed.

(** X15.  A text without [{-], or without [-}], goes through comment
    removal unchanged: in particular a comment that is opened and never
    closed is kept, with everything after it. *)
Theorem no_comment_unchanged (content : string) :
  Contains content "{-" = false \/ Contains content "-}" = false ->
  removeMultilineComments content = content.
Proof.
  intros H. unfold removeMultilineComments.
  destruct (String.length content) as [|n]; [reflexivity|].
  cbn [regexp.replaceAllComments].
  destruct (Index content "{-") as [i|] eqn:Hi; [|reflexivity].
  destruct H as [H|H]; apply Contains_false in H; [congruence|].
  by rewrite (Index_drop_none (i + 2) content "-}" H).
Qed.

Lemma no_comment_unchanged_witness :
  removeMultilineComments "A := 1; {- never closed"
  = "A := 1; {- never closed".
Proof.
  apply no_comment_unchanged. by right.
Defined.

(** The first [{-] of a text that has none before the one written. *)
Lemma Index_open pre rest :
  Contains (pre +:+ "{") "{-" = false ->
  Index (pre +:+ "{-" +:+ rest) "{-" = Some (String.length pre).
Proof.
  induction pre as [|c pre IH]; intros H; [reflexivity|].
  change (Contains (String c (pre +:+ "{")) "{-" = false) in H.
  change (String c pre +:+ "{-" +:+ rest)
    with (String c (pre +:+ "{-" +:+ rest)).
  apply Contains_cons_false in H as [Hp Hc].
  cbn [Index String.length].
  assert (Hp' : HasPrefix (String c (pre +:+ "{-" +:+ rest)) "{-" = false).
  { destruct pre as [|d pre]; [|exact Hp].
    change (Ascii.eqb "{" c && (Ascii.eqb "-" "{" && true) = false) in Hp.
    change (Ascii.eqb "{" c && (Ascii.eqb "-" "{" && true) = false).
    exact Hp. }
  rewrite Hp', (IH Hc). reflexivity.
Qed.

(** X16.  Comment removal works from left to right: of a text made of a
    part without [{-], a comment (from [{-] to the first [-}] after it)
    and a rest, the part is kept, the comment is dropped, line breaks
    included, and the rest is treated the same way. *)
Theorem first_comment_removed (pre body rest : string) :
  Contains (pre +:+ "{") "{-" = false ->
  Contains (body +:+ "-") "-}" = false ->
  removeMultilineComments (pre +:+ "{-" +:+ body +:+ "-}" +:+ rest)
  = pre +:+ removeMultilineComments rest.
Proof.
  intros Hpre Hbody. unfold removeMultilineComments.
  set (s := pre +:+ "{-" +:+ body +:+ "-}" +:+ rest).
  assert (Hlen : String.length s
                 = S (String.length pre + 1 + String.length body + 2
                      + String.length rest)).
  { unfold s. rewrite !length_app_s. simpl. lia. }
  rewrite Hlen.
  assert (Hi : Index s "{-" = Some (String.length pre))
    by (by apply Index_open).
  assert (Hd : drop (String.length pre + 2) s = body +:+ "-}" +:+ rest)
    by (unfold s; by rewrite drop_app_plus).
  rewrite (replaceAllComments_step _ s (String.length pre)
             (String.length body) Hi);
    [|rewrite Hd; by apply Index_close].
  rewrite Hd. unfold s at 1. rewrite take_app. f_equal.
  replace (String.length body + 2) with (String.length (body +:+ "-}"))
    by (rewrite length_app_s; reflexivity).
  rewrite <- app_assoc_s, drop_app.
  apply replaceAllComments_fuel; lia.
Qed.

Lemma first_comment_removed_witness :
  removeMultilineComments ("A := 1;" +:+ "{-" +:+ " one " +:+ "-}" +:+ "B := 2;")
  = "A := 1;" +:+ removeMultilineComments "B := 2;".
Proof.
  apply (first_comment_removed "A := 1;" " one " "B := 2;"); reflexivity.
Defined.

End comment_properties.

(** * Invariants of the symbol table *)

Section table_invariants.
Import strings.

(** The symbol table after one step of the loop of [Parse]. *)
Lemma processLine_table p output raw :
  let p' := fst (fst (processLine (p, output) raw)) in
  p' = p
  \/ p' = fst (handleConstant p (TrimSpace raw))
  \/ exists array,
       p' = setVariable p (arrayName (size (variables p))) (VStrings array).
Proof.
  unfold processLine.
  destruct (isEmpty _); [by left|].
  destruct (HasPrefix _ "//"); [by left|].
  destruct (_ && _).
  { right. left. by destruct (handleConstant p _). }
  destruct (_ && _).
  { destruct (_ && _); [|by left].
    destruct (resolveElements p _) as [array|]; [|by left].
    right. right. by exists array. }
  destruct (_ && _); [|by left].
  left. by destruct (handleKeyValue p _ output).
Qed.

Lemma int_table_set p k v :
  int_table p -> (forall z, v = VInt z -> int64 z) ->
  int_table (setVariable p k v).
Proof.
  intros Hp Hv k' z. cbn [setVariable variables].
  rewrite lookup_insert. case_decide; [|by apply Hp].
  intros [= ->]. by apply Hv.
Qed.

Lemma handleConstant_int_table p line :
  int_table p -> int_table (fst (handleConstant p line)).
Proof.
  intros Hp.
  destruct (handleConstant_cases p line)
    as [[_ ->]|(name & V & _ & [[_ ->]|[_ [(e & _ & ->)|(v & -> & Hv)]]])];
    try exact Hp.
  cbn [fst]. apply int_table_set; [exact Hp|by apply Hv].
Qed.

Lemma processLine_int_table p output raw :
  int_table p -> int_table (fst (fst (processLine (p, output) raw))).
Proof.
  intros Hp.
  destruct (processLine_table p output raw) as [->|[->|[array ->]]].
  - exact Hp.
  - by apply handleConstant_int_table.
  - apply int_table_set; [exact Hp|discriminate].
Qed.

(** X17.  Every integer the symbol table holds is a 64-bit value: if
    that is so before some lines are processed, it is so after, whether
    the processing ends with an error or not (an expression whose result
    overflows stores the wrapped value). *)
Theorem integers_stay_64_bit (st : Parser * string) (lines : list string) :
  int_table (fst st) ->
  int_table (fst (fst (processLines st lines))).
Proof.
  revert st. induction lines as [|l lines IH]; intros [p output] Hp;
    [exact Hp|].
  cbn [processLines].
  pose proof (processLine_int_table p output l Hp) as Hstep.
  destruct (processLine (p, output) l) as [[p' output'] [e|]];
    [exact Hstep|]. by apply IH.
Qed.

Lemma integers_stay_64_bit_witness :
  int_table (fst (fst (processLines (NewParser, EmptyString)
    ["A := 9223372036854775807;"; "B := ?(+ A 1);"]))).
Proof.
  apply (integers_stay_64_bit (NewParser, EmptyString)).
  intros k v H. discriminate.
Defined.

Lemma FormatInt_nat_inj (a b : nat) :
  strconv.FormatInt (Z.of_nat a) = strconv.FormatInt (Z.of_nat b) -> a = b.
Proof.
  intros H.
  destruct (FormatInt_decimal (Z.of_nat a) ltac:(lia)) as (_ & Ha & _).
  destruct (FormatInt_decimal (Z.of_nat b) ltac:(lia)) as (_ & Hb & _).
  rewrite H in Ha. lia.
Qed.

Lemma arrayName_inj (a b : nat) : arrayName a = arrayName b -> a = b.
Proof.
  unfold arrayName. intros H. apply FormatInt_nat_inj.
  by apply (inj (String.app "_array_")) in H.
Qed.

Lemma arrayName_no_name (n : nat) : ~ matches_name (arrayName n).
Proof.
  intros [_ H].
  change (arrayName n)
    with (String "_" (String "a" ("rray_" +:+ strconv.FormatInt (Z.of_nat n))))
    in H.
  cbn [list_ascii_of_string] in H.
  apply Forall_cons in H as [_ H]. apply Forall_cons in H as [H _].
  unfold name_char in H. change (byte "a") with 97%Z in H. lia.
Qed.

Lemma arrayName_fresh p :
  names_table p -> variables p !! arrayName (size (variables p)) = None.
Proof.
  intros Hp. destruct (variables p !! arrayName _) as [v|] eqn:E; [|done].
  destruct (Hp _ (mk_is_Some _ _ E)) as [Hm|(n & Hn & Heq)].
  - by apply arrayName_no_name in Hm.
  - apply arrayName_inj in Heq. lia.
Qed.

Lemma size_insert_le (m : gmap string Value) k v :
  size m <= size (<[k := v]> m).
Proof. rewrite map_size_insert. destruct (m !! k); simpl; lia. Qed.

Lemma names_table_set p name v :
  names_table p -> matches_name name -> names_table (setVariable p name v).
Proof.
  intros Hp Hname k. cbn [setVariable variables].
  rewrite lookup_insert. case_decide as Hk; [subst; by left|].
  intros Hsome. destruct (Hp k Hsome) as [Hm|(n & Hn & ->)]; [by left|].
  right. exists n. split; [|done].
  pose proof (size_insert_le (variables p) name v). lia.
Qed.

Lemma names_table_array p array :
  names_table p ->
  names_table (setVariable p (arrayName (size (variables p))) (VStrings array)).
Proof.
  intros Hp k. cbn [setVariable variables].
  rewrite map_size_insert, (arrayName_fresh p Hp).
  rewrite lookup_insert. case_decide as Hk.
  - intros _. right. exists (size (variables p)). split; [lia|done].
  - intros Hsome. destruct (Hp k Hsome) as [Hm|(n & Hn & ->)]; [by left|].
    right. exists n. split; [lia|done].
Qed.

Lemma handleConstant_names_table p line :
  names_table p -> names_table (fst (handleConstant p line)).
Proof.
  intros Hp.
  destruct (handleConstant_cases p line)
    as [[_ ->]|(name & V & _ & [[_ ->]|[Hv [(e & _ & ->)|(v & -> & _)]]])];
    try exact Hp.
  cbn [fst]. apply names_table_set; [exact Hp|].
  by apply isValidName_matches.
Qed.

(** X18.  The names the symbol table binds are of two kinds only: names
    of constants, which match [^[A-Z_]+$], and names [_array_<n>] of
    anonymous arrays, with [n] below the number of symbols bound.  If
    that is so before some lines are processed, it is so after. *)
Theorem names_stay_well_formed (st : Parser * string) (lines : list string) :
  names_table (fst st) ->
  names_table (fst (fst (processLines st lines))).
Proof.
  revert st. induction lines as [|l lines IH]; intros [p output] Hp;
    [exact Hp|].
  cbn [processLines].
  assert (Hstep : names_table (fst (fst (processLine (p, output) l)))).
  { destruct (processLine_table p output l) as [->|[->|[array ->]]].
    - exact Hp.
    - by apply handleConstant_names_table.
    - by apply names_table_array. }
  destruct (processLine (p, output) l) as [[p' output'] [e|]];
    [exact Hstep|]. by apply IH.
Qed.

Lemma names_stay_well_formed_witness :
  names_table (fst (fst (processLines (NewParser, EmptyString)
    ["A := 1;"; "[1, 2]"; "B := A;"]))).
Proof.
  apply (names_stay_well_formed (NewParser, EmptyString)).
  intros k [v H]. discriminate.
Defined.

(** X19.  An anonymous array never replaces a binding.  In a table whose
    names are well formed, the name [_array_<count>] that [Parse] builds
    from the number of bound symbols is free; storing the array binds
    one symbol more and keeps all the others. *)
Theorem anonymous_array_name_is_fresh (p : Parser) (array : list string) :
  names_table p ->
  let name := arrayName (size (variables p)) in
  let p' := setVariable p name (VStrings array) in
  variables p !! name = None
  /\ size (variables p') = S (size (variables p))
  /\ forall k v, variables p !! k = Some v -> variables p' !! k = Some v.
Proof.
  intros Hp name p'. pose proof (arrayName_fresh p Hp) as Hfresh.
  split; [exact Hfresh|]. split.
  - unfold p'. cbn [setVariable variables].
    rewrite map_size_insert. unfold name. by rewrite Hfresh.
  - intros k v Hk. unfold p'. cbn [setVariable variables].
    rewrite lookup_insert_ne; [done|]. intros <-. unfold name in Hk.
    congruence.
Qed.

Lemma anonymous_array_name_is_fresh_witness :
  let p := setVariable NewParser "A" (VInt 1) in
  variables p !! arrayName 1 = None.
Proof.
  intros p.
  refine (proj1 (anonymous_array_name_is_fresh p [] _)).
  apply (names_table_set NewParser "A" (VInt 1)).
  - intros k [v H]. discriminate.
  - split; [discriminate|]. constructor; [|constructor].
    unfold name_char. change (byte "A") with 65%Z. lia.
Defined.

End table_invariants.

(** * Integers and their decimal text *)

Section number_text.
Import strings.
Local Open Scope Z_scope.

(** On decimal digits the loop of [ParseUint] computes the base-10
    value, as long as that value fits 64 bits. *)
Lemma parseUintLoop_decimal digits n :
  0 <= n -> Forall (is_digit 10) (list_ascii_of_string digits) ->
  fold_left (digit_step 10) (list_ascii_of_string digits) n
    <= strconv.maxUint64 ->
  strconv.parseUintLoop 10 n digits
  = inl (fold_left (digit_step 10) (list_ascii_of_string digits) n).
Proof.
  revert n. induction digits as [|c digits IH]; intros n Hn Hd Hmax;
    [reflexivity|].
  cbn [list_ascii_of_string fold_left] in *.
  apply Forall_cons in Hd as [Hc Hd]. unfold is_digit in Hc.
  assert (Hn1 : 0 <= digit_step 10 n c) by (unfold digit_step; lia).
  pose proof (fold_digits_lower 10 _ _ Hn1 ltac:(lia) Hd) as Hlow.
  cbn [strconv.parseUintLoop].
  destruct (Z.leb_spec 48 (byte c)); [|lia].
  destruct (Z.leb_spec (byte c) 57); [|lia]. cbn [andb negb].
  destruct (Z.leb_spec 10 (byte c - 48)); [lia|].
  assert (Hfit : n * 10 + (byte c - 48) <= 18446744073709551615).
  { change (digit_step 10 n c <= 2 ^ 64 - 1). etrans; [exact Hlow|exact Hmax]. }
  unfold strconv.maxUint64 in *.
  change (2 ^ 64 - 1) with 18446744073709551615 in *.
  change (18446744073709551615 / 10 + 1) with 1844674407370955162.
  destruct (Z.leb_spec 1844674407370955162 n); [lia|].
  destruct (Z.ltb_spec 18446744073709551615 (n * 10 + (byte c - 48))); [lia|].
  apply IH; [lia|done|done].
Qed.

Lemma ParseUint_decimal s u :
  decimal_of s u -> u <= 2 ^ 63 -> strconv.ParseUint s 10 = inl u.
Proof.
  intros ([Hne Hd] & Hval & _) Hu. rewrite digitsValue_fold in Hval.
  destruct s as [|c s]; [done|]. unfold strconv.ParseUint.
  rewrite parseUintLoop_decimal; [by rewrite Hval|lia|done|].
  rewrite Hval. unfold strconv.maxUint64. lia.
Qed.

Lemma decimal_no_octal_prefix s u :
  decimal_of s u -> HasPrefix s "0o" || HasPrefix s "0O" = false.
Proof.
  intros ([Hne _] & _ & Hzero).
  destruct s as [|c s]; [done|].
  destruct (Ascii.eqb_spec "0" c) as [<-|Hc].
  - rewrite (Hzero s eq_refl). reflexivity.
  - change (HasPrefix (String c s) "0o")
      with (Ascii.eqb "0" c && HasPrefix s "o").
    change (HasPrefix (String c s) "0O")
      with (Ascii.eqb "0" c && HasPrefix s "O").
    apply Ascii.eqb_neq in Hc. by rewrite Hc.
Qed.

Lemma decimal_head s u :
  decimal_of s u -> exists c s', s = String c s' /\ is_digit 10 c.
Proof.
  intros ([Hne Hd] & _). destruct s as [|c s]; [done|].
  cbn [list_ascii_of_string] in Hd. apply Forall_cons in Hd as [Hc _].
  by exists c, s.
Qed.

Lemma FormatInt_negative v :
  v < 0 -> strconv.FormatInt v = String "-" (strconv.FormatInt (- v)).
Proof.
  intros Hv. unfold strconv.FormatInt.
  destruct (Z.ltb_spec v 0); [|lia].
  by destruct (Z.ltb_spec (- v) 0); [lia|].
Qed.

Lemma Atoi_FormatInt v : int64 v -> strconv.Atoi (strconv.FormatInt v) = Ok v.
Proof.
  unfold int64, strconv.minInt64, strconv.maxInt64. intros Hv.
  unfold strconv.Atoi. destruct (Z.ltb_spec v 0) as [Hneg|Hpos].
  - rewrite (FormatInt_negative v Hneg).
    pose proof (FormatInt_decimal (- v) ltac:(lia)) as Hdec.
    cbn [strconv.parseIntAs].
    change (Ascii.eqb "-" "-") with true.
    change (Ascii.eqb "-" "+") with false. cbn [orb].
    rewrite (ParseUint_decimal _ _ Hdec) by lia. cbn [negb andb].
    destruct (Z.ltb_spec (2 ^ 63) (- v)); [lia|]. f_equal. lia.
  - pose proof (FormatInt_decimal v Hpos) as Hdec.
    destruct (decimal_head _ _ Hdec) as (c & s' & Hs & Hc).
    pose proof (ParseUint_decimal _ _ Hdec ltac:(lia)) as Hparse.
    rewrite Hs in *. cbn [strconv.parseIntAs].
    destruct (digit_not_sign c 10 Hc) as [-> ->]. cbn [orb].
    rewrite Hparse. cbn [negb andb].
    by destruct (Z.leb_spec (2 ^ 63) v); [lia|].
Qed.

(** X20.  Writing a 64-bit integer and reading it again gives the same
    integer: the text [%v] writes for it is read back by [Atoi] and by
    [parseNumber] (it never starts with [0o]), so that [isNumber]
    accepts it and [formatItem] leaves it unquoted. *)
Theorem integer_text_round_trip (v : Z) :
  int64 v ->
  strconv.Atoi (Sprint (VInt v)) = Ok v
  /\ parseNumber (Sprint (VInt v)) = Ok v
  /\ isNumber (Sprint (VInt v)) = true
  /\ formatItem (Sprint (VInt v)) = Sprint (VInt v).
Proof.
  intros Hv. cbn [Sprint]. pose proof (Atoi_FormatInt v Hv) as Hatoi.
  assert (Hpre : HasPrefix (strconv.FormatInt v) "0o"
                 || HasPrefix (strconv.FormatInt v) "0O" = false).
  { destruct (Z.ltb_spec v 0) as [Hneg|Hpos].
    - by rewrite (FormatInt_negative v Hneg).
    - by eapply decimal_no_octal_prefix, FormatInt_decimal. }
  assert (Hparse : parseNumber (strconv.FormatInt v) = Ok v)
    by (unfold parseNumber; by rewrite Hpre).
  split; [done|]. split; [done|]. split.
  - by rewrite isNumber_parseNumber, Hparse.
  - unfold formatItem. by rewrite Hatoi.
Qed.

Lemma integer_text_round_trip_witness :
  int64 (-9223372036854775808)
  /\ strconv.Atoi (Sprint (VInt (-9223372036854775808)))
     = Ok (-9223372036854775808).
Proof.
  assert (H : int64 (-9223372036854775808))
    by (unfold int64, strconv.minInt64, strconv.maxInt64; lia).
  split; [exact H|].
  exact (proj1 (integer_text_round_trip (-9223372036854775808) H)).
Defined.

End number_text.

(** * The loop over the lines *)

Section loop_properties.
Import strings.

Lemma handleKeyValue_output p line output :
  handleKeyValue p line output
  = (output +:+ fst (handleKeyValue p line EmptyString),
     snd (handleKeyValue p line EmptyString)).
Proof.
  unfold handleKeyValue.
  destruct (SplitN2 line "=") as [|part0 [|part1 [|part2 l]]];
    cbn [fst snd]; rewrite ?app_empty_r; try reflexivity.
  destruct (resolveValue p _); cbn [fst snd]; by rewrite ?app_empty_r.
Qed.

Lemma processLine_output p output raw :
  processLine (p, output) raw
  = (fst (fst (processLine (p, EmptyString) raw)),
     output +:+ snd (fst (processLine (p, EmptyString) raw)),
     snd (processLine (p, EmptyString) raw)).
Proof.
  unfold processLine.
  destruct (isEmpty _); [cbn [fst snd]; by rewrite app_empty_r|].
  destruct (HasPrefix _ "//"); [cbn [fst snd]; by rewrite app_empty_r|].
  destruct (_ && _).
  { destruct (handleConstant p _). cbn [fst snd]. by rewrite app_empty_r. }
  destruct (_ && _).
  { destruct (_ && _); [|reflexivity].
    destruct (resolveElements p _); cbn [fst snd]; by rewrite app_empty_r. }
  destruct (_ && _); [|cbn [fst snd]; by rewrite app_empty_r].
  rewrite (handleKeyValue_output p _ output).
  by destruct (handleKeyValue p _ EmptyString).
Qed.

(** X21.  The output builder is only ever appended to, and nothing the
    loop does depends on what it holds: processing lines from a builder
    that holds [output] gives the same parser, the same error and, after
    [output], the same text as processing them from an empty builder. *)
Theorem output_is_appended (p : Parser) (output : string)
    (lines : list string) :
  processLines (p, output) lines
  = (fst (fst (processLines (p, EmptyString) lines)),
     output +:+ snd (fst (processLines (p, EmptyString) lines)),
     snd (processLines (p, EmptyString) lines)).
Proof.
  revert p output. induction lines as [|l lines IH]; intros p output.
  { cbn [processLines fst snd]. by rewrite app_empty_r. }
  cbn [processLines]. rewrite (processLine_output p output l).
  destruct (processLine (p, EmptyString) l) as [[p1 o1] [e|]];
    cbn [fst snd]; [reflexivity|].
  rewrite (IH p1 (output +:+ o1)), (IH p1 o1). cbn [fst snd].
  by rewrite app_assoc_s.
Qed.

Lemma evaluation_conversion_error e : evaluation_error e -> conversion_error e.
Proof. by destruct e. Qed.

Lemma processLine_error p output raw st e :
  processLine (p, output) raw = (st, Some e) -> conversion_error e.
Proof.
  unfold processLine.
  destruct (isEmpty _); [discriminate|].
  destruct (HasPrefix _ "//"); [discriminate|].
  destruct (_ && _).
  { destruct (handleConstant_cases p (TrimSpace raw))
      as [[_ ->]|(name & V & _ & [[_ ->]|[_ [(e' & He & ->)|(v & -> & _)]]])];
      intros [= <- <-]; try exact I.
    by apply evaluation_conversion_error. }
  destruct (_ && _).
  { destruct (_ && _); [|discriminate].
    destruct (resolveElements_ok p (Split (TrimSpace (TrimSuffix
                (TrimPrefix (TrimSpace raw) "[") "]")) ",")) as [array ->].
    discriminate. }
  destruct (_ && _); [|discriminate].
  unfold handleKeyValue.
  destruct (SplitN2 _ "=") as [|part0 [|part1 [|part2 l]]];
    try (intros [= <- <-]; exact I).
  destruct (resolveValue_ok p (TrimSpace part1)) as [val ->]. discriminate.
Qed.

(** X22.  The errors of a conversion: a syntax error, an invalid name,
    or an error of the evaluator.  [ErrUndefinedVariable] is declared
    and never returned; an undefined name is read as a text or makes
    [Atoi] fail. *)
Theorem undefined_variable_never_returned (st st' : Parser * string)
    (lines : list string) (e : error) :
  processLines st lines = (st', Some e) ->
  conversion_error e /\ e <> ErrUndefinedVariable.
Proof.
  intros H. assert (He : conversion_error e); [|split; [done|by intros ->]].
  revert st H. induction lines as [|l lines IH]; intros [p output];
    [discriminate|].
  cbn [processLines].
  destruct (processLine (p, output) l) as [st1 [e1|]] eqn:E.
  - intros [= <- <-]. by eapply processLine_error.
  - apply IH.
Qed.

Lemma undefined_variable_never_returned_witness :
  ErrNotNumber "B" <> ErrUndefinedVariable.
Proof.
  refine (proj2 (undefined_variable_never_returned (NewParser, EmptyString)
    (setVariable NewParser "B" (VString "x"), EmptyString)
    ["B := @" +:+ quote +:+ "x" +:+ quote +:+ ";"; "A := ?(+ B 1);"]
    (ErrNotNumber "B") _)).
  vm_compute. reflexivity.
Defined.

End loop_properties.

(** * Where a conversion stops, and what a line is before it is read *)

Section line_reading.
Import strings.

Lemma handleConstant_error p line p' e :
  handleConstant p line = (p', Some e) -> p' = p.
Proof.
  destruct (handleConstant_cases p line)
    as [[_ ->]|(name & V & _ & [[_ ->]|[_ [(e' & _ & ->)|(v & -> & _)]]])];
    by intros [= <-].
Qed.

Lemma handleKeyValue_error p line output output' e :
  handleKeyValue p line output = (output', Some e) -> output' = output.
Proof.
  unfold handleKeyValue.
  destruct (SplitN2 line "=") as [|part0 [|part1 [|part2 l]]];
    try by intros [= <-].
  by destruct (resolveValue p _); intros [= <-].
Qed.

Lemma processLine_error_state st raw st' e :
  processLine st raw = (st', Some e) -> st' = st.
Proof.
  destruct st as [p output]. unfold processLine.
  destruct (isEmpty _); [by intros [= <-]|].
  destruct (HasPrefix _ "//"); [by intros [= <-]|].
  destruct (_ && _).
  { destruct (handleConstant p _) as [p1 e1] eqn:E. intros [= <- ->].
    by rewrite (handleConstant_error _ _ _ _ E). }
  destruct (_ && _).
  { destruct (_ && _); [|discriminate].
    by destruct (resolveElements p _); intros [= <-]. }
  destruct (_ && _); [|discriminate].
  destruct (handleKeyValue p _ output) as [o1 e1] eqn:E. intros [= <- ->].
  by rewrite (handleKeyValue_error _ _ _ _ _ E).
Qed.

(** X23.  Where a conversion stops.  When the loop over the lines ends
    with an error, the lines split into those before the failing one,
    which were all processed, the failing line, which changed neither
    the symbol table nor the output, and the lines after it, which play
    no part: the state returned is the state before the failing line. *)
Theorem conversion_stops_at_first_error (st st' : Parser * string)
    (lines : list string) (e : error) :
  processLines st lines = (st', Some e) ->
  exists before line after,
    lines = before ++ line :: after
    /\ processLines st before = (st', None)
    /\ processLine st' line = (st', Some e)
    /\ forall others,
         processLines st (before ++ line :: others) = (st', Some e).
Proof.
  revert st. induction lines as [|l lines IH]; intros st; [discriminate|].
  cbn [processLines].
  destruct (processLine st l) as [st1 [e1|]] eqn:E.
  - intros [= <- <-].
    pose proof (processLine_error_state _ _ _ _ E) as ->.
    exists [], l, lines. split; [done|]. split; [done|]. split; [done|].
    intros others. cbn [app processLines]. by rewrite E.
  - intros (before & line & after & -> & Hb & Hl & Ho)%IH.
    exists (l :: before), line, after. split; [done|].
    cbn [app processLines]. rewrite E. split; [done|]. split; [done|].
    intros others. apply Ho.
Qed.

Lemma conversion_stops_at_first_error_witness :
  exists before line after,
    ["A := 1;"; "b := 2;"; "C := 3;"] = before ++ line :: after
    /\ processLines (NewParser, EmptyString) before
       = ((setVariable NewParser "A" (VInt 1), EmptyString), None)
    /\ processLine (setVariable NewParser "A" (VInt 1), EmptyString) line
       = ((setVariable NewParser "A" (VInt 1), EmptyString),
          Some (ErrInvalidName "b"))
    /\ forall others,
         processLines (NewParser, EmptyString) (before ++ line :: others)
         = ((setVariable NewParser "A" (VInt 1), EmptyString),
            Some (ErrInvalidName "b")).
Proof.
  apply (conversion_stops_at_first_error (NewParser, EmptyString)).
  reflexivity.
Defined.

Lemma trimLeftFrom_blanks (ws : string) (c0 : ascii) (r : string)
    (fuel : nat) :
  blanks ws -> graphic c0 -> String.length ws < fuel ->
  trimLeftFrom fuel (ws +:+ String c0 r) = String c0 r.
Proof.
  intros Hws [Hc Hs]. revert fuel.
  induction ws as [|a ws IH]; intros [|fuel] Hfuel; try (simpl in Hfuel; lia).
  - change (EmptyString +:+ String c0 r) with (String c0 r).
    cbn [trimLeftFrom]. by rewrite (decode_ascii c0 r Hc), Hs.
  - rewrite app_cons. cbn [trimLeftFrom].
    unfold blanks in Hws. cbn [list_ascii_of_string] in Hws.
    apply Forall_cons in Hws as [[Ha Hsp] Hws].
    rewrite (decode_ascii a _ Ha), Hsp. cbn [drop].
    apply IH; [exact Hws|]. simpl in Hfuel. lia.
Qed.

Lemma take_snoc (n : nat) (s : string) :
  n < String.length s ->
  exists a, take (S n) s = take n s +:+ String a EmptyString
            /\ In a (list_ascii_of_string s).
Proof.
  revert n. induction s as [|c s IH]; intros n Hn; [simpl in Hn; lia|].
  destruct n as [|n].
  - exists c. split; [by destruct s|by left].
  - destruct (IH n) as (a & Ha & Hin); [simpl in Hn; lia|].
    exists a. split; [|by right].
    rewrite (take_nonempty (S n)), Ha. reflexivity.
Qed.

Lemma lastIndexNotSpace_blanks (t : string) (c1 : ascii) (ws : string)
    (n fuel : nat) :
  graphic c1 -> blanks ws -> n <= String.length ws -> n < fuel ->
  lastIndexNotSpace fuel ((t +:+ String c1 EmptyString) +:+ ws)
    (String.length (t +:+ String c1 EmptyString) + n)
  = Some (String.length t).
Proof.
  intros [Hc Hs] Hws. revert fuel.
  induction n as [|n IH]; intros [|fuel] Hn Hfuel; try lia.
  - rewrite Nat.add_0_r, length_snoc.
    cbn [lastIndexNotSpace]. rewrite <- (length_snoc t c1), take_app.
    rewrite (DecodeLast_ascii t c1 Hc), Hs. rewrite length_snoc.
    f_equal. lia.
  - rewrite Nat.add_succ_r. cbn [lastIndexNotSpace].
    rewrite <- Nat.add_succ_r, take_app_plus.
    destruct (take_snoc n ws ltac:(lia)) as (a & -> & Hin).
    unfold blanks in Hws. rewrite List.Forall_forall in Hws.
    destruct (Hws a Hin) as [Ha Hsp].
    rewrite <- app_assoc_s, (DecodeLast_ascii _ a Ha), Hsp.
    replace (String.length (t +:+ String c1 EmptyString) + S n - 1)
      with (String.length (t +:+ String c1 EmptyString) + n) by lia.
    apply IH; lia.
Qed.

Lemma TrimSpace_padded (ws core ws' : string) :
  blanks ws -> blanks ws' -> graphic_ends core ->
  TrimSpace (ws +:+ core +:+ ws') = core.
Proof.
  intros Hws Hws' (c0 & r0 & r1 & c1 & H0 & H1 & Hc0 & Hc1).
  unfold TrimSpace, TrimLeftSpace.
  rewrite H0 at 1 2. rewrite !app_cons.
  rewrite (trimLeftFrom_blanks ws c0 _ _ Hws Hc0)
    by (rewrite length_app_s; simpl; lia).
  rewrite <- app_cons, <- H0, H1.
  unfold TrimRightSpace.
  set (base := r1 +:+ String c1 EmptyString).
  rewrite (length_app_s base ws').
  rewrite (lastIndexNotSpace_blanks r1 c1 ws' _ _ Hc1 Hws')
    by (unfold base; rewrite ?length_snoc; lia).
  unfold base at 1. rewrite app_assoc_s.
  change (String c1 EmptyString +:+ ws') with (String c1 ws').
  rewrite byteAt_app_last. destruct Hc1 as [Hc1 _].
  destruct (Z.leb_spec 128 (byte c1)); [lia|].
  replace (String.length r1 + 1) with (String.length base)
    by (unfold base; rewrite length_snoc; lia).
  apply take_app.
Qed.

(** X24.  Indentation and trailing white space do not count.  A line is
    trimmed before anything else is done with it: ASCII white space
    around a text that starts and ends with visible ASCII bytes, such as
    the carriage return of a CRLF file, changes nothing to what the line
    does. *)
Theorem padding_is_ignored (st : Parser * string) (ws core ws' : string) :
  blanks ws -> blanks ws' -> graphic_ends core ->
  processLine st (ws +:+ core +:+ ws') = processLine st core.
Proof.
  intros Hws Hws' Hcore. destruct st as [p output]. unfold processLine.
  by rewrite (TrimSpace_padded ws core ws' Hws Hws' Hcore),
    (TrimSpace_graphic_ends core Hcore).
Qed.

Lemma padding_is_ignored_witness :
  processLine (NewParser, EmptyString)
    (String "009" " " +:+ "PORT := 8080;" +:+ String "013" EmptyString)
  = processLine (NewParser, EmptyString) "PORT := 8080;".
Proof.
  apply (padding_is_ignored (NewParser, EmptyString)
           (String "009" " ") "PORT := 8080;" (String "013" EmptyString)).
  - constructor; [by split|]. constructor; [by split|constructor].
  - constructor; [by split|constructor].
  - exists "P"%char, "ORT := 8080;", "PORT := 8080", ";"%char.
    split; [reflexivity|]. split; [reflexivity|]. by split; split.
Defined.

End line_reading.
